(** * esnlm.readouts.logistic: the multinomial logistic regression readout

    A shallow embedding of [LogisticRegression] (src/esnlm/readouts/logistic.py)
    and the properties of its [fit], [log_likelihood] and constructor.

    - numpy arrays are a shape together with the row-major list of their
      entries; the numpy operations the class uses ([np.dot], [**] with
      broadcasting, [np.prod(axis=1)], [np.eye], indexing with a list,
      [reshape], [squeeze]) are written out on that representation;
    - float64 scalars are an abstract carrier [F] with the operations the code
      applies to them ([FloatOps]); no algebraic law is assumed of them except
      where a statement lists it as a hypothesis;
    - [esnlm.utils.softmax], [esnlm.optimization.gradient], [hessian],
      [newton_raphson] and [scipy.optimize.minimize] are not part of the
      file: they are the fields of the class [Collaborators], over which
      everything is stated;
    - [fit] reads and writes [self.params] and prints: it lives in a small
      state-and-exception monad whose state holds the object and the trace of
      what was printed and which routines were called. *)

From Stdlib Require Import String.
From Stdlib Require Import List ZArith Lia Bool Arith.
Import ListNotations.

Set Implicit Arguments.

(** ** Exceptions and results *)

Inductive exn : Type :=
| ValueError
| IndexError
| OtherError (name : string).

Inductive result (A : Type) : Type :=
| Ok (a : A)
| Raise (e : exn).

Arguments Ok {A} a.
Arguments Raise {A} e.

Definition rbind {A B} (r : result A) (k : A -> result B) : result B :=
  match r with
  | Ok a => k a
  | Raise e => Raise e
  end.

Definition rmap {A B} (f : A -> B) (r : result A) : result B :=
  rbind r (fun a => Ok (f a)).

Declare Scope result_scope.
Delimit Scope result_scope with res.
Notation "'let?' x ':=' r 'in' k" := (rbind r (fun x => k))
  (at level 61, x name, r at next level, right associativity) : result_scope.

(** ** Scalars *)

Class FloatOps (F : Type) : Type := {
  of_int : Z -> F;
  fadd : F -> F -> F;
  fmul : F -> F -> F;
  fdiv : F -> F -> F;
  fpow : F -> F -> F;
  fneg : F -> F;
  flog : F -> F;
  fsqrt : F -> F;
  fltb : F -> F -> bool;
  eps7 : F;
  xtol4 : F
}.

(** ** Arrays *)

Record ndarray (F : Type) : Type := mk_nd {
  shape : list nat;
  data : list F
}.

Arguments mk_nd {F} shape data.

Definition size_of (sh : list nat) : nat := fold_right Nat.mul 1 sh.

Definition well_shaped {F} (a : ndarray F) : Prop :=
  length (data a) = size_of (shape a).

Section Numpy.

Context {F : Type} {ops : FloatOps F}.

Local Open Scope result_scope.

Definition fzero : F := of_int 0.
Definition fone : F := of_int 1.

Definition fsum (l : list F) : F := fold_left fadd l fzero.
Definition fprod (l : list F) : F := fold_left fmul l fone.

Definition at_ (l : list F) (p : nat) : F := nth p l fzero.

(** [a.size] *)
Definition size (a : ndarray F) : nat := length (data a).

(** [a.reshape(sh)]: the same entries under another shape of the same size. *)
Definition reshape (a : ndarray F) (sh : list nat) : result (ndarray F) :=
  if size a =? size_of sh then Ok (mk_nd sh (data a)) else Raise ValueError.

(** [a.squeeze()] drops the axes of length one. *)
Definition squeeze (a : ndarray F) : ndarray F :=
  mk_nd (filter (fun d => negb (d =? 1)) (shape a)) (data a).

Definition map_nd (f : F -> F) (a : ndarray F) : ndarray F :=
  mk_nd (shape a) (map f (data a)).

(** Unary minus on an array, [np.log], and [a + c] for a scalar [c]. *)
Definition neg_nd : ndarray F -> ndarray F := map_nd fneg.
Definition np_log : ndarray F -> ndarray F := map_nd flog.
Definition add_scalar (a : ndarray F) (c : F) : ndarray F :=
  map_nd (fun v => fadd v c) a.

(** [np.sum(a)] over all entries. *)
Definition np_sum (a : ndarray F) : F := fsum (data a).

(** [np.ones((n,))] *)
Definition ones (n : nat) : ndarray F := mk_nd [n] (repeat fone n).

(** [a.shape[0]] *)
Definition shape0 (a : ndarray F) : result nat :=
  match shape a with
  | [] => Raise IndexError
  | n :: _ => Ok n
  end.

(** Broadcasting.  Shapes are aligned on their last axis, so both functions
    work on reversed shapes.  [bshape] is the shape of the result, when the
    operands are compatible; [boffset rs rsh 1 p] is the position, in an operand
    of (reversed) shape [rs], of the entry that lands at position [p] of the
    result of (reversed) shape [rsh]. *)
Fixpoint bshape (r1 r2 : list nat) : option (list nat) :=
  match r1 with
  | [] => Some r2
  | a :: r1' =>
      match r2 with
      | [] => Some r1
      | b :: r2' =>
          match bshape r1' r2' with
          | None => None
          | Some r =>
              if a =? b then Some (a :: r)
              else if a =? 1 then Some (b :: r)
              else if b =? 1 then Some (a :: r)
              else None
          end
      end
  end.

Fixpoint boffset (rs rsh : list nat) (stride p : nat) : nat :=
  match rs, rsh with
  | d :: rs', r :: rsh' =>
      (if d =? 1 then 0 else p mod r) * stride
      + boffset rs' rsh' (stride * d) (p / r)
  | _, _ => 0
  end.

Definition broadcast2 (f : F -> F -> F) (a b : ndarray F) : result (ndarray F) :=
  let ra := rev (shape a) in
  let rb := rev (shape b) in
  match bshape ra rb with
  | None => Raise ValueError
  | Some r =>
      Ok (mk_nd (rev r)
            (map (fun p => f (at_ (data a) (boffset ra r 1 p))
                             (at_ (data b) (boffset rb r 1 p)))
                 (seq 0 (size_of r))))
  end.

(** [a ** b] and [a * b] *)
Definition power : ndarray F -> ndarray F -> result (ndarray F) := broadcast2 fpow.
Definition multiply : ndarray F -> ndarray F -> result (ndarray F) := broadcast2 fmul.

(** [np.prod(a, axis=1)]: for [a] of shape [s0 :: s1 :: rest] the result has
    shape [s0 :: rest]; there is no axis 1 below two dimensions. *)
Definition prod_axis1 (a : ndarray F) : result (ndarray F) :=
  match shape a with
  | s0 :: s1 :: rest =>
      let R := size_of rest in
      Ok (mk_nd (s0 :: rest)
            (map (fun q =>
                    fprod (map (fun j => at_ (data a) (((q / R) * s1 + j) * R + q mod R))
                               (seq 0 s1)))
                 (seq 0 (s0 * R))))
  | _ => Raise ValueError
  end.

(** [np.dot(a, b)]: the sum of products over the last axis of [a] and the
    second-to-last axis of [b] (the only axis of a one-dimensional [b]); with
    a zero-dimensional operand it is [multiply].  [a] is read as [A] rows of
    length [L], [b] as [B] blocks of [L] rows of length [M]. *)
Definition contract (A L B M : nat) (da db : list F) : list F :=
  map (fun q =>
         let ia := q / (B * M) in
         let ib := (q / M) mod B in
         let m := q mod M in
         fsum (map (fun l => fmul (at_ da (ia * L + l)) (at_ db ((ib * L + l) * M + m)))
                   (seq 0 L)))
      (seq 0 (A * B * M)).

Definition dot (a b : ndarray F) : result (ndarray F) :=
  match rev (shape a), rev (shape b) with
  | [], _ => multiply a b
  | _, [] => multiply a b
  | L :: ra, [L'] =>
      if L =? L'
      then Ok (mk_nd (rev ra) (contract (size_of ra) L 1 1 (data a) (data b)))
      else Raise ValueError
  | L :: ra, M :: L' :: rb =>
      if L =? L'
      then Ok (mk_nd (rev ra ++ rev rb ++ [M])
                 (contract (size_of ra) L (size_of rb) M (data a) (data b)))
      else Raise ValueError
  end.

(** [np.eye(k)] *)
Definition eye (k : nat) : ndarray F :=
  mk_nd [k; k]
    (map (fun p => if p / k =? p mod k then fone else fzero) (seq 0 (k * k))).

(** [a[l]] for a Python list [l] of integers: the listed rows of [a], where a
    negative index counts from the end and an index outside [-n, n) raises. *)
Definition row_index (n : nat) (z : Z) : result nat :=
  if ((0 <=? z) && (z <? Z.of_nat n))%Z then Ok (Z.to_nat z)
  else if ((- Z.of_nat n <=? z) && (z <? 0))%Z then Ok (Z.to_nat (z + Z.of_nat n))
  else Raise IndexError.

Fixpoint gather (n R : nat) (d : list F) (l : list Z) : result (list F) :=
  match l with
  | [] => Ok []
  | z :: l' =>
      let? i := row_index n z in
      let? rest := gather n R d l' in
      Ok (firstn R (skipn (i * R) d) ++ rest)
  end.

Definition take_rows (a : ndarray F) (l : list Z) : result (ndarray F) :=
  match shape a with
  | [] => Raise IndexError
  | n :: rest =>
      let? d := gather n (size_of rest) (data a) l in
      Ok (mk_nd (length l :: rest) d)
  end.

End Numpy.

(** ** The object, its inputs and what a call leaves behind *)

(** An instance of [LogisticRegression]. *)
Record LogisticRegression (F : Type) : Type := mk_lr {
  input_dim : nat;
  output_dim : nat;
  verbose : bool;
  params : ndarray F
}.

Arguments mk_lr {F} input_dim output_dim verbose params.

(** The [y] argument of [fit]: a Python list of integer class labels, or a
    numpy array. *)
Inductive target (F : Type) : Type :=
| YList (labels : list Z)
| YArray (a : ndarray F).

Arguments YList {F} labels.
Arguments YArray {F} a.

(** An item written by a [print] statement. *)
Inductive printed : Type :=
| PStr (s : string)
| PInt (i : nat).

(** What [fit] does that is visible from outside, in order: the items it
    prints and the calls it makes to the optimisation routines. *)
Inductive event (F : Type) : Type :=
| Printed (item : printed)
| CallGradient (x y post w : ndarray F)
| CallHessian (x y post w : ndarray F)
| CallNewton (grad hess p : ndarray F)
| CallMinimize (x0 : ndarray F) (method : string).

Arguments Printed {F} item.
Arguments CallGradient {F} x y post w.
Arguments CallHessian {F} x y post w.
Arguments CallNewton {F} grad hess p.
Arguments CallMinimize {F} x0 method.

Definition is_printed {F} (e : event F) : bool :=
  match e with
  | Printed _ => true
  | _ => false
  end.

(** The text on standard output, item by item. *)
Definition stdout {F} (t : list (event F)) : list (event F) := filter is_printed t.

Record world (F : Type) : Type := mk_world {
  self : LogisticRegression F;
  trace : list (event F)
}.

Arguments mk_world {F} self trace.

(** ** Statements: state and exceptions *)

Definition M (F A : Type) : Type := world F -> result A * world F.

Definition ret {F A} (a : A) : M F A := fun w => (Ok a, w).

Definition bind {F A B} (m : M F A) (k : A -> M F B) : M F B :=
  fun w =>
    match m w with
    | (Ok a, w') => k a w'
    | (Raise e, w') => (Raise e, w')
    end.

Definition lift {F A} (r : result A) : M F A := fun w => (r, w).

Definition get_self {F} : M F (LogisticRegression F) := fun w => (Ok (self w), w).

(** [self.params = p] *)
Definition set_params {F} (p : ndarray F) : M F unit :=
  fun w =>
    let s := self w in
    (Ok tt, mk_world (mk_lr (input_dim s) (output_dim s) (verbose s) p) (trace w)).

Definition emit {F} (e : event F) : M F unit :=
  fun w => (Ok tt, mk_world (self w) (trace w ++ [e])).

Definition when {F} (b : bool) (m : M F unit) : M F unit :=
  if b then m else ret tt.

Declare Scope stmt_scope.
Delimit Scope stmt_scope with stmt.
Notation "x <- m ;; k" := (bind m (fun x => k))
  (at level 61, m at next level, right associativity) : stmt_scope.
Notation "m ;; k" := (bind m (fun _ => k))
  (at level 61, right associativity) : stmt_scope.

(** Options handed to [scipy.optimize.minimize]. *)
Record minimize_options (F : Type) : Type := mk_options {
  maxiter : nat;
  xtol : F;
  disp : bool
}.

Arguments mk_options {F} maxiter xtol disp.

(** ** The collaborators that live outside the file

    [np.random.rand] (as the stream of its draws), [esnlm.utils.softmax],
    [esnlm.optimization.gradient], [hessian] and [newton_raphson], and
    [scipy.optimize.minimize] (its result's [x]).  Each may raise. *)
Class Collaborators (F : Type) : Type := {
  rand_draw : nat -> F;
  softmax : ndarray F -> result (ndarray F);
  gradient : ndarray F -> ndarray F -> ndarray F -> ndarray F -> result (ndarray F);
  hessian : ndarray F -> ndarray F -> ndarray F -> ndarray F -> result (ndarray F);
  newton_raphson :
    ndarray F -> ndarray F -> ndarray F -> (ndarray F -> result F) ->
    result (ndarray F);
  minimize :
    (ndarray F -> result F) -> ndarray F -> (ndarray F -> result (ndarray F)) ->
    (ndarray F -> result (ndarray F)) -> string -> minimize_options F ->
    result (ndarray F)
}.

(** ** The class *)

Section Logistic.

Context {F : Type} {ops : FloatOps F}.

Local Abbreviation array := (ndarray F).

Context {ext : Collaborators F}.

Local Open Scope result_scope.

(** [np.random.rand(d, k)]: the next [d * k] draws, laid out as [d] rows. *)
Definition rand (d k : nat) : array :=
  mk_nd [d; k] (map rand_draw (seq 0 (d * k))).

(** [__init__]: [3*(-1 + 2*np.random.rand(input_dim, output_dim))/np.sqrt(input_dim)] *)
Definition init (d k : nat) (v : bool) : LogisticRegression F :=
  mk_lr d k v
    (map_nd (fun r =>
               fdiv (fmul (of_int 3) (fadd (of_int (-1)) (fmul (of_int 2) r)))
                    (fsqrt (of_int (Z.of_nat d))))
            (rand d k)).

(** [py_given_x]: [softmax(np.dot(x, self.params))] *)
Definition py_given_x (s : LogisticRegression F) (x : array) : result array :=
  let? scores := dot x (params s) in
  softmax scores.

(** [log_likelihood] *)
Definition log_likelihood (s : LogisticRegression F) (x y : array) : result F :=
  let? post := py_given_x s x in
  let? pw := power post y in
  let? lik := prod_axis1 pw in
  Ok (np_sum (np_log (add_scalar lik eps7))).

(** The closure [_objective_function] of [fit]; [s] is the object it reads
    [self.params.shape] from, [x] and [y] the variables it captures. *)
Definition _objective_function (s : LogisticRegression F) (x y p : array) : result F :=
  let? p2 := reshape p (shape (params s)) in
  let? scores := dot x p2 in
  let? post := softmax scores in
  let? pw := power post y in
  let? lik := prod_axis1 pw in
  Ok (np_sum (np_log (add_scalar lik eps7))).

(** [if type(y) == type([]): y = np.eye(self.output_dim)[y]] *)
Definition expand_labels (s : LogisticRegression F) (y : target F) : result array :=
  match y with
  | YList l => take_rows (eye (output_dim s)) l
  | YArray a => Ok a
  end.

(** [np.ones((y.shape[0], ))] *)
Definition unit_weights (y : array) : result array :=
  let? n := shape0 y in Ok (ones n).

Local Open Scope stmt_scope.

Definition call_gradient (x y post : array) : M F array :=
  w <- lift (unit_weights y) ;;
  emit (CallGradient x y post w) ;;
  lift (gradient x y post w).

Definition call_hessian (x y post : array) : M F array :=
  w <- lift (unit_weights y) ;;
  emit (CallHessian x y post w) ;;
  lift (hessian x y post w).

Definition call_newton (grad hess p : array) (objective : array -> result F)
  : M F array :=
  emit (CallNewton grad hess p) ;;
  lift (newton_raphson grad hess p objective).

(** One pass of the body of [for i in range(max_iter)], up to the convergence
    test: the new value of the local [params] and the objective there. *)
Definition loop_body (x y : array) (i : nat) (p : array) : M F (array * F) :=
  s <- get_self ;;
  when (verbose s) (emit (Printed (PInt i))) ;;
  scores <- lift (dot x p) ;;
  post <- lift (softmax scores) ;;
  grad <- call_gradient x y post ;;
  hess <- call_hessian x y post ;;
  s <- get_self ;;
  p' <- call_newton grad hess p (_objective_function s x y) ;;
  s <- get_self ;;
  new_value <- lift (_objective_function s x y p') ;;
  ret (p', new_value).

(** The loop, one list element per pass.  The result is the value of the
    local [params] when the loop is left, by [break] or because the range is
    exhausted. *)
Fixpoint newton_loop (x y : array) (range : list nat) (p : array) (old_value : F)
  : M F array :=
  match range with
  | [] => ret p
  | i :: range' =>
      r <- loop_body x y i p ;;
      if fltb (snd r) (fadd old_value (of_int 1)) then ret (fst r)
      else newton_loop x y range' (fst r) (snd r)
  end.

(** The values one pass computes, without the printing and the bookkeeping:
    [loop_body] returns exactly this (lemma [body_value]). *)
Definition iteration (s : LogisticRegression F) (x y p : array) : result (array * F) :=
  (let? scores := dot x p in
   let? post := softmax scores in
   let? w := unit_weights y in
   let? grad := gradient x y post w in
   let? w' := unit_weights y in
   let? hess := hessian x y post w' in
   let? p' := newton_raphson grad hess p (_objective_function s x y) in
   let? new_value := _objective_function s x y p' in
   Ok (p', new_value))%res.

(** The three callbacks of the [else] branch. *)
Definition obj (s : LogisticRegression F) (x y p : array) : result F :=
  rmap fneg (_objective_function s x y p).

Definition grd (s : LogisticRegression F) (x y p : array) : result array :=
  let? p2 := reshape p (shape (params s)) in
  let? scores := dot x p2 in
  let? post := softmax scores in
  let? w := unit_weights y in
  let? g := gradient x y post w in
  Ok (neg_nd (squeeze g)).

Definition hsn (s : LogisticRegression F) (x y p : array) : result array :=
  let? p2 := reshape p (shape (params s)) in
  let? scores := dot x p2 in
  let? post := softmax scores in
  let? w := unit_weights y in
  let? h := hessian x y post w in
  Ok (neg_nd h).

Definition fit_options : minimize_options F := mk_options 100 xtol4 true.

(** [fit] *)
Definition fit (x : array) (y : target F) (method : string) (max_iter : Z)
  : M F array :=
  s <- get_self ;;
  y <- lift (expand_labels s y) ;;
  s <- get_self ;;
  let p := params s in
  old_value <- lift (_objective_function s x y p) ;;
  if (method =? "Newton-Raphson")%string then
    emit (Printed (PStr "... Newton-Raphson:")) ;;
    p <- newton_loop x y (seq 0 (Z.to_nat max_iter)) p old_value ;;
    s <- get_self ;;
    p2 <- lift (reshape p (shape (params s))) ;;
    set_params p2 ;;
    s <- get_self ;;
    when (verbose s) (emit (Printed (PStr "The End."))) ;;
    ret p
  else
    p <- lift (reshape p [size p]) ;;
    s <- get_self ;;
    emit (CallMinimize p method) ;;
    p <- lift (minimize (obj s x y) p (grd s x y) (hsn s x y) method fit_options) ;;
    s <- get_self ;;
    p2 <- lift (reshape p (shape (params s))) ;;
    set_params p2 ;;
    ret p.

(** [fit(x, y)]: the defaults are [method='Newton-Raphson'] and
    [max_iter=20]. *)
Definition fit_default (x : array) (y : target F) : M F array :=
  fit x y "Newton-Raphson" 20.

(** *** The loop as the state machine of the design

    From ITERATING at pass [i] with parameters [p] and previous objective
    [v]: the budget is exhausted, or a pass yields new parameters whose
    objective is below [v + 1] and the loop stops there, or it goes on from
    the new parameters.  [fit_loop s x y budget i p v t pf] says the machine
    started in that state ends in the terminal state [t] holding [pf]. *)
Inductive terminal : Type := CONVERGED | MAX_ITER_REACHED.

Inductive fit_loop (s : LogisticRegression F) (x y : array) (budget : nat)
  : nat -> array -> F -> terminal -> array -> Prop :=
| loop_exhausted p v :
    fit_loop s x y budget budget p v MAX_ITER_REACHED p
| loop_converged i p v p' v' :
    i < budget ->
    iteration s x y p = Ok (p', v') ->
    fltb v' (fadd v (of_int 1)) = true ->
    fit_loop s x y budget i p v CONVERGED p'
| loop_continue i p v p' v' t pf :
    i < budget ->
    iteration s x y p = Ok (p', v') ->
    fltb v' (fadd v (of_int 1)) = false ->
    fit_loop s x y budget (S i) p' v' t pf ->
    fit_loop s x y budget i p v t pf.

(** *** The log-likelihood as the design states it

    For a posterior and a target with [n] rows of [k] entries: the sum over
    the samples [i] of [log (prod_c posterior[i,c] ** y[i,c] + 1e-7)]. *)
Definition entry (a : array) (k i c : nat) : F := at_ (data a) (i * k + c).

Definition sample_likelihood (post y : array) (k i : nat) : F :=
  fprod (map (fun c => fpow (entry post k i c) (entry y k i c)) (seq 0 k)).

Definition sample_term (post y : array) (k i : nat) : F :=
  flog (fadd (sample_likelihood post y k i) eps7).

Definition spec_log_likelihood (post y : array) (n k : nat) : F :=
  fsum (map (sample_term post y k) (seq 0 n)).

(** The identities of float64 arithmetic that make a zero probability of the
    observed class yield a likelihood of exactly zero. *)
Definition exact_identities : Prop :=
  (forall p, fpow p fzero = fone)
  /\ fpow fzero fone = fzero
  /\ fmul fone fone = fone
  /\ fmul fone fzero = fzero
  /\ fmul fzero fone = fzero
  /\ fadd fzero eps7 = eps7.

(** Row [i] of [y] is the one-hot row of class [c]. *)
Definition one_hot_row (y : array) (k i c : nat) : Prop :=
  c < k /\ forall c', c' < k -> entry y k i c' = if c' =? c then fone else fzero.

(** *** Notions used in the statements *)

Definition header : event F := Printed (PStr "... Newton-Raphson:").
Definition the_end : event F := Printed (PStr "The End.").

Definition with_params (s : LogisticRegression F) (p : array) : LogisticRegression F :=
  mk_lr (input_dim s) (output_dim s) (verbose s) p.

(** The frame of a whole call: whatever [fit] does, it only ever replaces
    [self.params], and only by an array of the shape it had. *)
Definition same_frame (s s' : LogisticRegression F) : Prop :=
  input_dim s' = input_dim s /\ output_dim s' = output_dim s
  /\ verbose s' = verbose s /\ shape (params s') = shape (params s).

(** The events a pass appends to the trace only concern the [y] it is given:
    every call to [gradient] and [hessian] receives that [y], with unit
    weights of length [y.shape[0]]. *)
Definition feeds (x y : array) (e : event F) : Prop :=
  match e with
  | CallGradient x' y' _ w' => x' = x /\ y' = y /\ unit_weights y = Ok w'
  | CallHessian x' y' _ w' => x' = x /\ y' = y /\ unit_weights y = Ok w'
  | _ => True
  end.

(** *** Well-formed objects and inputs *)

(** The parameter matrix is a full [input_dim] by [output_dim] matrix. *)
Definition well_formed_object (s : LogisticRegression F) : Prop :=
  shape (params s) = [input_dim s; output_dim s] /\ well_shaped (params s).

(** [x] has one row of [input_dim] features per sample and [y] one row of
    [output_dim] entries, or one class label, per sample. *)
Definition well_formed_inputs (s : LogisticRegression F) (x : array) (y : target F)
  : Prop :=
  exists n,
    shape x = [n; input_dim s] /\
    match y with
    | YList l =>
        List.length l = n /\
        Forall (fun z => (0 <= z < Z.of_nat (output_dim s))%Z) l
    | YArray a => shape a = [n; output_dim s]
    end.

(** Modelled from the spec: the contract of [softmax], which lives in
    [esnlm.utils]: "output is a row-stochastic probability matrix of
    identical shape", "no error conditions".  Only totality and the shape are
    used. *)
Definition total_softmax : Prop :=
  forall a, exists b, softmax a = Ok b /\ shape b = shape a.

End Logistic.

(** ** Sampling

    [sample_y_given_x] draws from [np.random.multinomial], which reads and
    advances numpy's global generator: the generator is a state [rng] passed
    along, and [multinomial g n pvals] is the draw together with the state
    after it. *)
Class Sampler (F : Type) : Type := {
  rng : Type;
  multinomial : rng -> nat -> ndarray F -> result (ndarray F) * rng
}.

Section Sampling.

Context {F : Type} {ops : FloatOps F} {ext : Collaborators F} {smp : Sampler F}.

(** [a[i, :]] for [i >= 0]: the sub-array at position [i] of the first axis,
    which needs a second axis to slice. *)
Definition row_slice (a : ndarray F) (i : nat) : result (ndarray F) :=
  match shape a with
  | s0 :: s1 :: rest =>
      let len := s1 * size_of rest in
      if i <? s0 then Ok (mk_nd (s1 :: rest) (firstn len (skipn (i * len) (data a))))
      else Raise IndexError
  | _ => Raise IndexError
  end.

Fixpoint same_shape (s1 s2 : list nat) : bool :=
  match s1, s2 with
  | [], [] => true
  | a :: s1', b :: s2' => (a =? b) && same_shape s1' s2'
  | _, _ => false
  end.

(** [np.array(rows)] for a list of arrays: the rows stacked along a new first
    axis.  The empty list gives the empty array of shape [(0,)].  Rows of
    different shapes do not make a rectangular array; numpy's answer to them
    is not modelled beyond the exception, and no statement below reaches
    it. *)
Definition np_array (rows : list (ndarray F)) : result (ndarray F) :=
  match rows with
  | [] => Ok (mk_nd [0] [])
  | r :: _ =>
      if forallb (fun r' => same_shape (shape r') (shape r)) rows
      then Ok (mk_nd (List.length rows :: shape r) (concat (map (fun r' => data r') rows)))
      else Raise ValueError
  end.

(** [[np.random.multinomial(1, post[i, :]) for i in ...]]: one draw per index,
    in order; the first exception ends the comprehension. *)
Fixpoint draw_rows (post : ndarray F) (range : list nat) (g : rng)
  : result (list (ndarray F)) * rng :=
  match range with
  | [] => (Ok [], g)
  | i :: range' =>
      match row_slice post i with
      | Raise e => (Raise e, g)
      | Ok pvals =>
          match multinomial g 1 pvals with
          | (Raise e, g1) => (Raise e, g1)
          | (Ok d, g1) =>
              match draw_rows post range' g1 with
              | (Ok ds, g2) => (Ok (d :: ds), g2)
              | (Raise e, g2) => (Raise e, g2)
              end
          end
      end
  end.

(** [sample_y_given_x] *)
Definition sample_y_given_x (s : LogisticRegression F) (x : ndarray F) (g : rng)
  : result (ndarray F) * rng :=
  match py_given_x s x with
  | Raise e => (Raise e, g)
  | Ok post =>
      match shape0 x with
      | Raise e => (Raise e, g)
      | Ok n =>
          match draw_rows post (seq 0 n) g with
          | (Ok rows, g') => (np_array rows, g')
          | (Raise e, g') => (Raise e, g')
          end
      end
  end.

(** What numpy promises of [multinomial(1, pvals)] for a vector [pvals]: when
    it returns, the draw has the shape of [pvals]. *)
Definition draws_keep_shape : Prop :=
  forall g n pvals d g',
    multinomial g n pvals = (Ok d, g') -> shape d = shape pvals.

(** *** Further notions used in the statements *)

(** The one-hot row of class [j] among [k] classes. *)
Definition one_hot (k j : nat) : list F :=
  map (fun c => if c =? j then fone else fzero) (seq 0 k).

(** A class label as Python reads it when it indexes [k] rows. *)
Definition label_in_range (k : nat) (z : Z) : Prop :=
  (- Z.of_nat k <= z < Z.of_nat k)%Z.

(** [print i,] *)
Definition print_index (i : nat) : event F := Printed (PInt i).

Definition is_newton_call (e : event F) : bool :=
  match e with
  | CallNewton _ _ _ => true
  | _ => false
  end.

Definition is_routine_call (e : event F) : bool :=
  match e with
  | CallGradient _ _ _ _ | CallHessian _ _ _ _ | CallNewton _ _ _ => true
  | _ => false
  end.

(** The log-likelihood of [n] samples against the single row of a one-row
    target: every sample is scored with row 0 of [y]. *)
Definition one_row_log_likelihood (post y : ndarray F) (n k : nat) : F :=
  fsum (map (fun i =>
               flog (fadd (fprod (map (fun c => fpow (entry post k i c) (entry y k 0 c))
                                      (seq 0 k)))
                          eps7))
            (seq 0 n)).

End Sampling.

(** ** A small instance to run the definitions on

    Integer arithmetic stands in for float64 and simple total functions stand
    in for the collaborators, so that [fit] can be evaluated on concrete
    inputs.  Nothing proved in general depends on these choices. *)

Module Demo.

#[local] Instance int_ops : FloatOps Z := {|
  of_int := fun z => z;
  fadd := Z.add;
  fmul := Z.mul;
  fdiv := Z.div;
  fpow := Z.pow;
  fneg := Z.opp;
  flog := Z.log2;
  fsqrt := Z.sqrt;
  fltb := Z.ltb;
  eps7 := 1%Z;
  xtol4 := 1%Z
|}.

Definition draw (n : nat) : Z := Z.of_nat n.

(** Stand-in for [softmax]: total and shape preserving. *)
Definition same_scores (a : ndarray Z) : result (ndarray Z) := Ok a.

(** Stand-in for [gradient] and [hessian]: total. *)
Definition echo_posterior (x y post w : ndarray Z) : result (ndarray Z) := Ok post.

(** Stand-in for [newton_raphson]: entries below 4 grow, the others shrink,
    so that the objective rises for two steps and then falls. *)
Definition rise_then_fall (grad hess p : ndarray Z)
    (objective : ndarray Z -> result Z) : result (ndarray Z) :=
  Ok (map_nd (fun v => if (v <? 4)%Z then (4 * v + 3)%Z else (v / 4)%Z) p).

(** A [newton_raphson] that fails on its first call. *)
Definition singular (grad hess p : ndarray Z)
    (objective : ndarray Z -> result Z) : result (ndarray Z) :=
  Raise (OtherError "LinAlgError").

(** Stand-in for [scipy.optimize.minimize]: returns its starting point. *)
Definition stay (f : ndarray Z -> result Z) (x0 : ndarray Z)
    (jac hess : ndarray Z -> result (ndarray Z)) (method : string)
    (options : minimize_options Z) : result (ndarray Z) :=
  Ok x0.

Definition toy : Collaborators Z := {|
  rand_draw := draw;
  softmax := same_scores;
  gradient := echo_posterior;
  hessian := echo_posterior;
  newton_raphson := rise_then_fall;
  minimize := stay
|}.

Definition toy_singular : Collaborators Z := {|
  rand_draw := draw;
  softmax := same_scores;
  gradient := echo_posterior;
  hessian := echo_posterior;
  newton_raphson := singular;
  minimize := stay
|}.

Definition run_fit := fit (ext := toy).
Definition run_fit_default := fit_default (ext := toy).
Definition run_fit_singular := fit (ext := toy_singular).

(** [x = [[1, 0], [0, 1]]], also the one-hot matrix of the labels [[0, 1]]. *)
Definition id2 : ndarray Z := mk_nd [2; 2] [1; 0; 0; 1]%Z.

(** The class labels [[0, 1]] as a numpy array of shape [(2,)]. *)
Definition labels01 : ndarray Z := mk_nd [2] [0; 1]%Z.

(** A single sample with three features: [[[1, 2, 3]]]. *)
Definition x_three_features : ndarray Z := mk_nd [1; 3] [1; 2; 3]%Z.

(** A one-row target: [[[1, 0]]]. *)
Definition y_one_row : ndarray Z := mk_nd [1; 2] [1; 0]%Z.

(** An object with all parameters zero. *)
Definition lr0 (v : bool) : LogisticRegression Z :=
  mk_lr 2 2 v (mk_nd [2; 2] [0; 0; 0; 0]%Z).

Definition start (v : bool) : world Z := mk_world (lr0 v) [].


(** No sample: zero rows of two entries. *)
Definition no_rows : ndarray Z := mk_nd [0; 2] [].

(** The four parameters as the flat vector [minimize] works on. *)
Definition flat_zeros : ndarray Z := mk_nd [4] [0; 0; 0; 0]%Z.

(** Stand-in for [np.random.multinomial]: the generator is a counter, the
    draw the one-hot vector of the counter modulo the number of classes. *)
Definition pick (g n : nat) (pvals : ndarray Z) : result (ndarray Z) * nat :=
  (Ok (mk_nd (shape pvals)
         (map (fun c => if c =? g mod List.length (data pvals) then 1%Z else 0%Z)
              (seq 0 (List.length (data pvals))))),
   S g).

Definition toy_sampler : Sampler Z := {| rng := nat; multinomial := pick |}.

End Demo.

(** ** Properties *)

Section LogisticFacts.

Context {F : Type} {ops : FloatOps F}.

Context {ext : Collaborators F}.

Local Abbreviation objective := _objective_function.
Local Abbreviation loop := newton_loop.

(** *** Running statements *)

Lemma run_bind {A B} (m : M F A) (k : A -> M F B) w :
  bind m k w =
  match m w with
  | (Ok a, w') => k a w'
  | (Raise e, w') => (Raise e, w')
  end.
Proof. reflexivity. Qed.

Lemma run_lift_bind {A B} (r : result A) (k : A -> M F B) w :
  bind (lift r) k w =
  match r with
  | Ok a => k a w
  | Raise e => (Raise e, w)
  end.
Proof. unfold bind, lift. destruct r; reflexivity. Qed.

Lemma run_get_bind {B} (k : LogisticRegression F -> M F B) w :
  bind get_self k w = k (self w) w.
Proof. reflexivity. Qed.

Lemma run_emit_bind {B} (e : event F) (k : unit -> M F B) w :
  bind (emit e) k w = k tt (mk_world (self w) (trace w ++ [e])).
Proof. reflexivity. Qed.

Lemma run_when_bind {B} (b : bool) (e : event F) (k : unit -> M F B) w :
  bind (when b (emit e)) k w =
  k tt (mk_world (self w) (trace w ++ (if b then [e] else []))).
Proof.
  destruct b; cbn; [reflexivity|].
  rewrite app_nil_r. destruct w; reflexivity.
Qed.

Lemma run_set_bind {B} (p : ndarray F) (k : unit -> M F B) w :
  bind (set_params p) k w =
  k tt (mk_world (mk_lr (input_dim (self w)) (output_dim (self w))
                        (verbose (self w)) p) (trace w)).
Proof. reflexivity. Qed.

Lemma reshape_ok (a b : ndarray F) sh :
  reshape a sh = Ok b -> b = mk_nd sh (data a) /\ size a = size_of sh.
Proof.
  unfold reshape. destruct (Nat.eqb_spec (size a) (size_of sh)); [|discriminate].
  intros H. inversion H. auto.
Qed.

Lemma reshape_same (a : ndarray F) :
  well_shaped a -> reshape a (shape a) = Ok a.
Proof.
  unfold well_shaped, reshape, size. intros ->.
  rewrite Nat.eqb_refl. destruct a; reflexivity.
Qed.

Local Abbreviation body := loop_body.

Lemma loop_unfold x y i range p v w :
  loop x y (i :: range) p v w =
  match body x y i p w with
  | (Ok r, w') =>
      if fltb (snd r) (fadd v (of_int 1)) then (Ok (fst r), w')
      else loop x y range (fst r) (snd r) w'
  | (Raise e, w') => (Raise e, w')
  end.
Proof.
  cbn [newton_loop]. rewrite run_bind.
  destruct (body x y i p w) as [[r|e] w']; [|reflexivity].
  destruct (fltb _ _); reflexivity.
Qed.

Local Abbreviation iter := iteration.

Lemma run_assoc {A B C} (m : M F A) (f : A -> M F B) (g : B -> M F C) w :
  bind (bind m f) g w = bind m (fun a => bind (f a) g) w.
Proof.
  unfold bind. destruct (m w) as [[a|e] w1]; reflexivity.
Qed.

Lemma run_ret {A} (a : A) (w : world F) : ret a w = (Ok a, w).
Proof. reflexivity. Qed.

Lemma run_lift {A} (r : result A) (w : world F) : lift r w = (r, w).
Proof. reflexivity. Qed.

Lemma world_eta (w : world F) : mk_world (self w) (trace w) = w.
Proof. destruct w; reflexivity. Qed.

(** Evaluate a statement one step at a time, splitting on every result. *)
Ltac step :=
  first
    [ rewrite run_assoc
    | rewrite run_get_bind
    | rewrite run_when_bind
    | rewrite run_emit_bind
    | rewrite run_set_bind
    | rewrite run_lift_bind
    | rewrite run_ret
    | rewrite run_lift ];
  cbn [self trace fst snd].

Ltac split_result :=
  match goal with
  | |- context [match ?r with Ok _ => _ | Raise _ => _ end] =>
      let E := fresh "E" in destruct r eqn:E
  end.

Ltac walk := repeat (repeat step; try split_result); cbn [self trace fst snd].

Ltac use_results :=
  repeat (cbn [rbind rmap];
          match goal with
          | H : ?r = _ |- context [?r] => rewrite H
          end);
  cbn [rbind rmap].

Lemma body_spec x y i p w :
  fst (body x y i p w) = iter (self w) x y p
  /\ self (snd (body x y i p w)) = self w
  /\ exists evs, trace (snd (body x y i p w)) = trace w ++ evs
                 /\ Forall (feeds x y) evs
                 /\ (verbose (self w) = false ->
                     Forall (fun e => is_printed e = false) evs).
Proof.
  unfold loop_body, iteration, call_gradient, call_hessian, call_newton.
  walk.
  all: split; [use_results; reflexivity|].
  all: split; [reflexivity|].
  all: eexists; split; [rewrite <- ?app_assoc; reflexivity|].
  all: split; [|intros ->];
    repeat (apply Forall_app; split); repeat constructor; cbn; auto.
  all: destruct (verbose (self w)); repeat constructor.
Qed.

Lemma body_self x y i p w : self (snd (body x y i p w)) = self w.
Proof. apply body_spec. Qed.

Lemma body_value x y i p w : fst (body x y i p w) = iter (self w) x y p.
Proof. apply body_spec. Qed.

(** *** The loop leaves the object alone *)

Lemma loop_self x y range : forall p v w,
  self (snd (loop x y range p v w)) = self w.
Proof.
  induction range as [|i range IH]; intros p v w; [reflexivity|].
  rewrite loop_unfold.
  pose proof (body_self x y i p w) as Hs.
  destruct (body x y i p w) as [[r|e] w']; cbn [snd] in *; [|exact Hs].
  destruct (fltb _ _); [exact Hs|].
  rewrite IH. exact Hs.
Qed.

Lemma same_frame_refl (s : LogisticRegression F) : same_frame s s.
Proof. repeat split. Qed.

Lemma fit_frame x y method max_iter w :
  same_frame (self w) (self (snd (fit x y method max_iter w))).
Proof.
  unfold fit. walk; try apply same_frame_refl.
  destruct (method =? "Newton-Raphson")%string.
  - step. rewrite run_bind.
    pose proof (loop_self x a (seq 0 (Z.to_nat max_iter)) (params (self w)) a0
                  (mk_world (self w) (trace w ++ [Printed (PStr "... Newton-Raphson:")])))
      as Hs.
    destruct (loop _ _ _ _ _ _) as [[p|e] w']; cbn [self snd] in Hs.
    + walk; rewrite Hs in *; try apply same_frame_refl.
      apply reshape_ok in E1. destruct E1 as [-> _]. repeat split.
    + cbn [snd]. rewrite Hs. apply same_frame_refl.
  - walk; try apply same_frame_refl.
    apply reshape_ok in E3. destruct E3 as [-> _]. repeat split.
Qed.

Lemma fit_raise_keeps_self x y method max_iter w e w' :
  fit x y method max_iter w = (Raise e, w') -> self w' = self w.
Proof.
  unfold fit. walk; try (intros H; inversion H; reflexivity).
  destruct (method =? "Newton-Raphson")%string.
  - step. rewrite run_bind.
    pose proof (loop_self x a (seq 0 (Z.to_nat max_iter)) (params (self w)) a0
                  (mk_world (self w) (trace w ++ [Printed (PStr "... Newton-Raphson:")])))
      as Hs.
    destruct (loop _ _ _ _ _ _) as [[p|e'] w1]; cbn [self snd] in Hs.
    + walk; intros H; inversion H; subst; cbn [self]; exact Hs.
    + intros H; inversion H; subst. exact Hs.
  - walk; intros H; inversion H; reflexivity.
Qed.

(** *** Shapes *)

Lemma bshape_same r : bshape r r = Some r.
Proof.
  induction r as [|a r IH]; [reflexivity|].
  cbn. rewrite IH, Nat.eqb_refl. reflexivity.
Qed.

Lemma gather_length n R (d : list F) l out :
  gather n R d l = Ok out ->
  (forall i, i < n -> List.length (firstn R (skipn (i * R) d)) = R) ->
  List.length out = List.length l * R.
Proof.
  revert out. induction l as [|z l IH]; intros out; cbn.
  - intros H _. inversion H. reflexivity.
  - unfold row_index.
    destruct ((0 <=? z)%Z && (z <? Z.of_nat n)%Z) eqn:E1; cbn [rbind].
    + destruct (gather n R d l) as [rest|e]; cbn [rbind]; [|discriminate].
      intros H Hrow. inversion H. rewrite length_app, (IH rest eq_refl Hrow).
      rewrite Hrow; [lia|]. apply andb_true_iff in E1. lia.
    + destruct ((- Z.of_nat n <=? z)%Z && (z <? 0)%Z) eqn:E2; cbn [rbind];
        [|discriminate].
      destruct (gather n R d l) as [rest|e]; cbn [rbind]; [|discriminate].
      intros H Hrow. inversion H. rewrite length_app, (IH rest eq_refl Hrow).
      rewrite Hrow; [lia|]. apply andb_true_iff in E2. lia.
Qed.

Lemma gather_in_range n R (d : list F) l :
  Forall (fun z => (0 <= z < Z.of_nat n)%Z) l ->
  exists out, gather n R d l = Ok out.
Proof.
  induction 1 as [|z l Hz _ [out IH]]; cbn; [eauto|].
  unfold row_index.
  replace ((0 <=? z)%Z && (z <? Z.of_nat n)%Z) with true
    by (symmetry; apply andb_true_iff; lia).
  cbn [rbind]. rewrite IH. cbn [rbind]. eauto.
Qed.

Lemma expand_labels_ok s x y :
  well_formed_inputs s x y ->
  exists yv n, expand_labels s y = Ok yv
               /\ shape x = [n; input_dim s] /\ shape yv = [n; output_dim s].
Proof.
  intros [n [Hx Hy]]. destruct y as [l|a]; cbn [expand_labels].
  - destruct Hy as [Hl Hin].
    destruct (@gather_in_range (output_dim s) (size_of [output_dim s])
                (data (eye (output_dim s))) l Hin)
      as [out Hout].
    unfold take_rows.
    change (shape (eye (output_dim s))) with [output_dim s; output_dim s].
    cbv beta iota. rewrite Hout. cbn [rbind].
    eexists; exists n; repeat split; [exact Hx|]. cbn [shape]. congruence.
  - exists a, n. auto.
Qed.

Lemma objective_defined s x y p n d k :
  total_softmax ->
  shape x = [n; d] -> shape (params s) = [d; k] -> shape y = [n; k] ->
  size p = d * k ->
  exists v, objective s x y p = Ok v.
Proof.
  intros Hsm Hx Hp Hy Hsz. unfold _objective_function.
  unfold reshape. rewrite Hp.
  replace (size p =? size_of [d; k]) with true
    by (symmetry; apply Nat.eqb_eq; cbn; lia).
  cbn [rbind]. unfold dot. cbn [shape]. rewrite Hx. cbn [rev app].
  rewrite Nat.eqb_refl. cbn [rbind rev app data].
  destruct (Hsm (mk_nd [n; k] (contract (size_of [n]) d (size_of []) k (data x) (data p))))
    as [post [Hpost Hshape]].
  rewrite Hpost. cbn [rbind].
  unfold power, broadcast2. rewrite Hshape, Hy. cbn [shape].
  rewrite bshape_same. cbn [rbind].
  unfold prod_axis1. cbn [shape rev app rbind]. eauto.
Qed.

(** A target with a single row is broadcast against the posterior, whatever
    the number of samples: the objective is defined all the same. *)
Lemma objective_defined_one_row s x y p n d k :
  total_softmax ->
  shape x = [n; d] -> shape (params s) = [d; k] -> shape y = [1; k] ->
  size p = d * k ->
  exists v, objective s x y p = Ok v.
Proof.
  intros Hsm Hx Hp Hy Hsz. unfold _objective_function.
  unfold reshape. rewrite Hp.
  replace (size p =? size_of [d; k]) with true
    by (symmetry; apply Nat.eqb_eq; cbn; lia).
  cbn [rbind]. unfold dot. cbn [shape]. rewrite Hx. cbn [rev app].
  rewrite Nat.eqb_refl. cbn [rbind rev app data].
  destruct (Hsm (mk_nd [n; k] (contract (size_of [n]) d (size_of []) k (data x) (data p))))
    as [post [Hpost Hshape]].
  rewrite Hpost. cbn [rbind].
  unfold power, broadcast2. rewrite Hshape, Hy. cbn [shape rev app bshape].
  destruct (n =? 1); rewrite !Nat.eqb_refl.
  all: cbn [rbind rev app].
  all: unfold prod_axis1; cbn [shape rbind]; eauto.
Qed.

(** *** The Newton-Raphson branch *)

Lemma fit_newton_unfold x y max_iter w yv v0 :
  expand_labels (self w) y = Ok yv ->
  objective (self w) x yv (params (self w)) = Ok v0 ->
  fit x y "Newton-Raphson" max_iter w =
  match loop x yv (seq 0 (Z.to_nat max_iter)) (params (self w)) v0
             (mk_world (self w) (trace w ++ [header])) with
  | (Ok p, w2) =>
      match reshape p (shape (params (self w2))) with
      | Ok p2 =>
          (Ok p, mk_world (with_params (self w2) p2)
                   (trace w2 ++ (if verbose (self w2) then [the_end] else [])))
      | Raise e => (Raise e, w2)
      end
  | (Raise e, w2) => (Raise e, w2)
  end.
Proof.
  intros Hy Hv. unfold fit. repeat step. rewrite Hy. repeat step. rewrite Hv.
  cbn [String.eqb Ascii.eqb Bool.eqb]. repeat step. rewrite run_bind.
  fold (@header F).
  destruct (loop _ _ _ _ _ _) as [[p|e] w2]; [|reflexivity].
  walk; reflexivity.
Qed.

Lemma loop_refines_machine x y m : forall i p v w t pf,
  fit_loop (self w) x y (i + m) i p v t pf ->
  fst (loop x y (seq i m) p v w) = Ok pf.
Proof.
  induction m as [|m IH]; intros i p v w t pf H.
  - inversion H; subst; try lia. reflexivity.
  - cbn [seq]. rewrite loop_unfold.
    pose proof (body_value x y i p w) as Hv.
    pose proof (body_self x y i p w) as Hs.
    destruct (body x y i p w) as [r w']. cbn [fst snd] in Hv, Hs. subst r.
    inversion H; subst; try lia.
    + rewrite H1. cbn [fst snd]. rewrite H2. reflexivity.
    + rewrite H1. cbn [fst snd]. rewrite H2.
      apply IH with (t := t). rewrite Hs.
      replace (S i + m) with (i + S m) by lia. assumption.
Qed.

Lemma machine_from_loop x y m : forall i p v w pf,
  fst (loop x y (seq i m) p v w) = Ok pf ->
  exists t, fit_loop (self w) x y (i + m) i p v t pf.
Proof.
  induction m as [|m IH]; intros i p v w pf.
  - cbn. intros H. inversion H. subst. exists MAX_ITER_REACHED.
    rewrite Nat.add_0_r. constructor.
  - cbn [seq]. rewrite loop_unfold.
    pose proof (body_value x y i p w) as Hv.
    pose proof (body_self x y i p w) as Hs.
    destruct (body x y i p w) as [r w']. cbn [fst snd] in Hv, Hs. subst r.
    destruct (iter (self w) x y p) as [[p' v']|e] eqn:Hit; [|discriminate].
    cbn [fst snd]. destruct (fltb v' (fadd v (of_int 1))) eqn:Hstop.
    + cbn. intros H. inversion H. subst. exists CONVERGED.
      eapply loop_converged; eauto. lia.
    + intros H. apply IH in H. destruct H as [t H]. exists t.
      eapply loop_continue; eauto; [lia|].
      rewrite Hs in H. replace (i + S m) with (S i + m) by lia. assumption.
Qed.

(** C1.  With method 'Newton-Raphson', once the labels are expanded and the
    initial objective is computed, [fit] follows the state machine [fit_loop]
    from pass 0: it stops at the first pass whose new objective is below the
    previous one plus 1, or when [max_iter] passes are done, and in both
    terminal states it returns the parameters of the last pass, whatever
    their objective value, and stores them under the shape of [self.params].
    Conversely every value [fit] returns is the content of a terminal
    state. *)
Theorem fit_newton_stopping_rule x y max_iter w yv v0 pf :
  expand_labels (self w) y = Ok yv ->
  _objective_function (self w) x yv (params (self w)) = Ok v0 ->
  size pf = size_of (shape (params (self w))) ->
  (forall t,
      fit_loop (self w) x yv
        (Z.to_nat max_iter) 0 (params (self w)) v0 t pf ->
      fst (fit x y "Newton-Raphson" max_iter w) = Ok pf
      /\ params (self (snd (fit x y "Newton-Raphson" max_iter w)))
         = mk_nd (shape (params (self w))) (data pf))
  /\ (fst (fit x y "Newton-Raphson" max_iter w) = Ok pf ->
      exists t,
        fit_loop (self w) x yv
          (Z.to_nat max_iter) 0 (params (self w)) v0 t pf).
Proof.
  intros Hy Hv Hsz.
  rewrite (fit_newton_unfold x y max_iter w Hy Hv).
  set (w1 := mk_world (self w) (trace w ++ [header])).
  pose proof (loop_self x yv (seq 0 (Z.to_nat max_iter)) (params (self w)) v0 w1) as Hs.
  split.
  - intros t H.
    pose proof (@loop_refines_machine x yv (Z.to_nat max_iter) 0 (params (self w)) v0
                  w1 t pf H) as Hl.
    destruct (loop _ _ _ _ _ _) as [r w2]. cbn [fst snd] in Hl, Hs. subst r.
    rewrite Hs. subst w1. cbn [self]. unfold reshape.
    rewrite Hsz, Nat.eqb_refl. split; reflexivity.
  - destruct (loop _ _ _ _ _ _) as [[p|e] w2] eqn:Hl; [|discriminate].
    cbn [snd] in Hs.
    destruct (reshape p (shape (params (self w2)))); [|discriminate].
    cbn [fst]. intros H. inversion H. subst p.
    apply (@machine_from_loop x yv (Z.to_nat max_iter) 0 (params (self w)) v0 w1).
    rewrite Hl. reflexivity.
Qed.

(** C3.  With method 'Newton-Raphson' and [max_iter = 0], on a well-formed
    object and well-formed [x], [y], [fit] returns the parameter matrix it
    started from and leaves the object as it was. *)
Theorem fit_zero_iterations x y w :
  total_softmax ->
  well_formed_object (self w) ->
  well_formed_inputs (self w) x y ->
  fst (fit x y "Newton-Raphson" 0 w) = Ok (params (self w))
  /\ self (snd (fit x y "Newton-Raphson" 0 w)) = self w.
Proof.
  intros Hsm [Hshape Hwf] Hin.
  destruct (expand_labels_ok Hin) as [yv [n [Hy [Hx Hyv]]]].
  destruct (@objective_defined (self w) x yv (params (self w)) n
              (input_dim (self w)) (output_dim (self w)) Hsm Hx Hshape Hyv)
    as [v0 Hv].
  { unfold size. rewrite Hwf, Hshape. cbn. lia. }
  rewrite (fit_newton_unfold x y 0 w Hy Hv).
  cbn [Z.to_nat seq newton_loop ret self trace].
  rewrite (reshape_same Hwf). cbn [fst snd self].
  split; [reflexivity|]. destruct (self w); reflexivity.
Qed.

(** No check stands between a sample-count mismatch and the computation:
    with a one-row [y], whatever the number of rows of [x], a call with
    [max_iter = 0] returns normally. *)
Lemma fit_one_row_target_returns x y w n :
  total_softmax ->
  well_formed_object (self w) ->
  shape x = [n; input_dim (self w)] ->
  shape y = [1; output_dim (self w)] ->
  fst (fit x (YArray y) "Newton-Raphson" 0 w) = Ok (params (self w)).
Proof.
  intros Hsm [Hshape Hwf] Hx Hy.
  destruct (@objective_defined_one_row (self w) x y (params (self w)) n
              (input_dim (self w)) (output_dim (self w)) Hsm Hx Hshape Hy)
    as [v0 Hv].
  { unfold size. rewrite Hwf, Hshape. cbn. lia. }
  rewrite (@fit_newton_unfold x (YArray y) 0 w y v0 eq_refl Hv).
  cbn [Z.to_nat seq newton_loop ret self trace].
  rewrite (reshape_same Hwf). reflexivity.
Qed.

(** C4.  No pass of the Newton-Raphson loop touches the object, and a call
    of [fit] that ends in an exception (raised by [newton_raphson] or by
    anything else on the way) leaves the object with the parameters it had. *)
Theorem params_written_on_loop_exit_only x y max_iter w :
  (forall yv range p v w0, self (snd (newton_loop x yv range p v w0)) = self w0)
  /\ (forall e w',
        fit x y "Newton-Raphson" max_iter w = (Raise e, w') ->
        self w' = self w).
Proof.
  split.
  - intros. apply loop_self.
  - intros e w' H. exact (fit_raise_keeps_self _ _ _ _ _ H).
Qed.

(** C9.  The constructor builds a parameter matrix of shape
    [input_dim, output_dim], and no call of [fit], whatever the method and
    whether it returns or raises, changes that shape or the two
    dimensions. *)
Theorem params_shape_invariant :
  (forall d k v,
      shape (params (init d k v)) = [d; k]
      /\ input_dim (init d k v) = d
      /\ output_dim (init d k v) = k)
  /\ (forall x y method max_iter w,
        shape (params (self (snd (fit x y method max_iter w))))
        = shape (params (self w))
        /\ input_dim (self (snd (fit x y method max_iter w))) = input_dim (self w)
        /\ output_dim (self (snd (fit x y method max_iter w))) = output_dim (self w)).
Proof.
  split.
  - intros. repeat split.
  - intros. destruct (fit_frame x y method max_iter w) as (H1 & H2 & _ & H4).
    auto.
Qed.

(** The constructor and [fit] also keep the entries in step with the shape. *)
Lemma init_well_formed d k v : well_formed_object (init d k v).
Proof.
  split; [reflexivity|].
  unfold well_shaped. cbn. rewrite length_map, length_map, length_seq. lia.
Qed.

Lemma reshape_well_formed (s : LogisticRegression F) p p2 :
  well_formed_object s ->
  reshape p (shape (params s)) = Ok p2 ->
  well_formed_object (with_params s p2).
Proof.
  intros [Hsh _] H. apply reshape_ok in H. destruct H as [-> Hsz].
  split; [exact Hsh|]. exact Hsz.
Qed.

Lemma fit_keeps_well_formed x y method max_iter w :
  well_formed_object (self w) ->
  well_formed_object (self (snd (fit x y method max_iter w))).
Proof.
  intros Hwf. unfold fit. walk; try exact Hwf.
  destruct (method =? "Newton-Raphson")%string.
  - step. rewrite run_bind.
    pose proof (loop_self x a (seq 0 (Z.to_nat max_iter)) (params (self w)) a0
                  (mk_world (self w) (trace w ++ [Printed (PStr "... Newton-Raphson:")])))
      as Hs.
    destruct (loop _ _ _ _ _ _) as [[p|e] w']; cbn [self snd] in Hs.
    + walk; rewrite Hs in *; try exact Hwf.
      exact (@reshape_well_formed _ _ _ Hwf E1).
    + cbn [snd]. rewrite Hs. exact Hwf.
  - walk; try exact Hwf. exact (@reshape_well_formed _ _ _ Hwf E3).
Qed.

(** *** What a call prints and which routines it feeds *)

Lemma loop_trace x y range : forall p v w,
  exists evs,
    trace (snd (loop x y range p v w)) = trace w ++ evs
    /\ Forall (feeds x y) evs
    /\ (verbose (self w) = false -> Forall (fun e => is_printed e = false) evs).
Proof.
  induction range as [|i range IH]; intros p v w.
  - exists []. cbn. rewrite app_nil_r. auto.
  - rewrite loop_unfold.
    destruct (body_spec x y i p w) as (_ & Hs & evs & Ht & Hf & Hq).
    destruct (body x y i p w) as [[r|e] w']; cbn [snd] in *; [|eauto].
    destruct (fltb _ _); [eauto|].
    destruct (IH (fst r) (snd r) w') as (evs' & Ht' & Hf' & Hq').
    exists (evs ++ evs'). rewrite Ht', Ht, app_assoc.
    split; [reflexivity|]. split; [apply Forall_app; auto|].
    intros Hv. apply Forall_app. split; [auto|]. apply Hq'. rewrite Hs. exact Hv.
Qed.

Lemma stdout_app (t1 t2 : list (event F)) : stdout (t1 ++ t2) = stdout t1 ++ stdout t2.
Proof. apply filter_app. Qed.

Lemma stdout_silent (t : list (event F)) :
  Forall (fun e => is_printed e = false) t -> stdout t = [].
Proof.
  induction 1 as [|e t He _ IH]; [reflexivity|].
  unfold stdout in *. cbn. rewrite He. exact IH.
Qed.

(** With [verbose] off the Newton-Raphson branch still prints its header, and
    nothing else, whether the call returns or raises. *)
Lemma fit_quiet_output x y max_iter w yv v0 :
  expand_labels (self w) y = Ok yv ->
  objective (self w) x yv (params (self w)) = Ok v0 ->
  verbose (self w) = false ->
  stdout (trace (snd (fit x y "Newton-Raphson" max_iter w)))
  = stdout (trace w) ++ [header].
Proof.
  intros Hy Hv Hq. rewrite (fit_newton_unfold x y max_iter w Hy Hv).
  set (w1 := mk_world (self w) (trace w ++ [header])).
  destruct (loop_trace x yv (seq 0 (Z.to_nat max_iter)) (params (self w)) v0 w1)
    as (evs & Ht & _ & Hsil).
  pose proof (loop_self x yv (seq 0 (Z.to_nat max_iter)) (params (self w)) v0 w1) as Hs.
  specialize (Hsil Hq).
  assert (Hout : stdout (trace w1 ++ evs) = stdout (trace w) ++ [header]).
  { rewrite stdout_app, (stdout_silent Hsil), app_nil_r.
    subst w1. cbn [trace]. rewrite stdout_app. reflexivity. }
  destruct (loop _ _ _ _ _ _) as [[p|e] w2]; cbn [snd] in *.
  - destruct (reshape p _); cbn [snd trace].
    + rewrite Hs. subst w1. cbn [self]. rewrite Hq, app_nil_r, Ht. exact Hout.
    + rewrite Ht. exact Hout.
  - rewrite Ht. exact Hout.
Qed.

(** *** Labels *)

Lemma expand_labels_raise s y e :
  expand_labels s y = Raise e -> e = IndexError /\ exists l, y = YList l.
Proof.
  destruct y as [l|a]; cbn [expand_labels]; [|discriminate].
  unfold take_rows.
  change (shape (eye (output_dim s))) with [output_dim s; output_dim s].
  cbv beta iota. generalize (data (eye (output_dim s))) as d.
  generalize (size_of [output_dim s]) as R. intros R d H.
  split; [|eauto].
  destruct (gather (output_dim s) R d l) as [out|e'] eqn:Hg; [discriminate|].
  cbn in H. inversion H. subst e'. clear H.
  revert Hg. induction l as [|z l IH]; cbn; [discriminate|].
  unfold row_index.
  destruct ((0 <=? z)%Z && (z <? Z.of_nat (output_dim s))%Z); cbn [rbind].
  - destruct (gather (output_dim s) R d l); cbn [rbind]; [discriminate|].
    intros H. inversion H. subst. apply IH. reflexivity.
  - destruct ((- Z.of_nat (output_dim s) <=? z)%Z && (z <? 0)%Z); cbn [rbind].
    + destruct (gather (output_dim s) R d l); cbn [rbind]; [discriminate|].
      intros H. inversion H. subst. apply IH. reflexivity.
    + intros H. inversion H. reflexivity.
Qed.


(** C7, as the code has it.  [fit] checks no shape itself.  When [x] is a
    matrix whose row length differs from the number of rows of the parameter
    matrix, the call raises before it prints or calls anything and without
    touching the object: numpy's [ValueError], out of the first matrix
    product, or [IndexError] when [y] is a list holding a label out of
    range. *)
Theorem fit_inner_dimension_mismatch x y method max_iter w n d d' k :
  shape x = [n; d] ->
  shape (params (self w)) = [d'; k] ->
  d <> d' ->
  exists e,
    fit x y method max_iter w = (Raise e, w)
    /\ (e = ValueError \/ e = IndexError)
    /\ (forall a, y = YArray a -> e = ValueError).
Proof.
  intros Hx Hp Hd. unfold fit. rewrite run_get_bind, run_lift_bind.
  destruct (expand_labels (self w) y) as [yv|e] eqn:Hy.
  - exists ValueError. split; [|split; [left; reflexivity | reflexivity]].
    rewrite run_get_bind, run_lift_bind.
    unfold _objective_function, reshape. rewrite Hp.
    destruct (size (params (self w)) =? size_of [d'; k]); [|reflexivity].
    cbn [rbind]. unfold dot. cbn [shape]. rewrite Hx. cbn [rev app].
    apply Nat.eqb_neq in Hd. rewrite Hd. reflexivity.
  - destruct (expand_labels_raise _ _ Hy) as [-> [l ->]].
    exists IndexError. split; [reflexivity|]. split; [right; reflexivity|].
    intros a H. discriminate H.
Qed.

(** C10.  A numpy array given as [y] is never expanded: it is the [y] of
    the initial objective, whose exception, if any, is the one [fit] raises,
    and every call [fit] makes to [gradient] and [hessian] receives that very
    array, with unit weights of length [a.shape[0]]. *)
Theorem array_target_is_used_as_is x a method max_iter w :
  expand_labels (self w) (YArray a) = Ok a
  /\ (forall e,
        _objective_function (self w) x a (params (self w)) = Raise e ->
        fit x (YArray a) method max_iter w = (Raise e, w))
  /\ (exists evs,
        trace (snd (fit x (YArray a) method max_iter w)) = trace w ++ evs
        /\ Forall (feeds x a) evs).
Proof.
  split; [reflexivity|]. split.
  - intros e He. unfold fit. rewrite run_get_bind, run_lift_bind.
    cbn [expand_labels]. rewrite run_get_bind, run_lift_bind, He. reflexivity.
  - unfold fit. rewrite run_get_bind, run_lift_bind. cbn [expand_labels].
    rewrite run_get_bind, run_lift_bind.
    destruct (objective (self w) x a (params (self w))) as [v0|e].
    2:{ exists []. rewrite app_nil_r. split; [reflexivity | constructor]. }
    destruct (method =? "Newton-Raphson")%string.
    + step. rewrite run_bind.
      destruct (loop_trace x a (seq 0 (Z.to_nat max_iter)) (params (self w)) v0
                  (mk_world (self w) (trace w ++ [header])))
        as (evs & Ht & Hf & _).
      unfold header in *.
      destruct (loop _ _ _ _ _ _) as [[p|e] w2]; cbn [snd trace] in *.
      * walk; rewrite ?Ht, <- ?app_assoc; eexists; split; try reflexivity;
          repeat (apply Forall_app; split); auto; repeat constructor.
        destruct (verbose (self w2)); repeat constructor.
      * rewrite Ht, <- app_assoc. eexists; split; [reflexivity|].
        apply Forall_app; split; auto. repeat constructor.
    + walk; rewrite <- ?app_assoc; eexists; split; try reflexivity;
        repeat constructor.
      rewrite app_nil_r. reflexivity.
Qed.

(** *** The external solver branch *)

(** C8.  With any method other than 'Newton-Raphson', once the labels are
    expanded and the initial objective is computed, [fit] calls [minimize]
    once, on the flattened parameters, with that method string and the
    callbacks [obj], [grd], [hsn]; these are the objective, the gradient and
    the Hessian negated; the call is recorded in every case, and the outcome
    of [fit] is the outcome of [minimize]: its exception, or its result,
    returned flat and stored under the shape of [self.params]. *)
Theorem fit_other_method_delegates x y method max_iter w yv v0 :
  (method =? "Newton-Raphson")%string = false ->
  expand_labels (self w) y = Ok yv ->
  _objective_function (self w) x yv (params (self w)) = Ok v0 ->
  let s := self w in
  let x0 := mk_nd [size (params s)] (data (params s)) in
  let w1 := mk_world s (trace w ++ [CallMinimize x0 method]) in
  fit x y method max_iter w =
    match minimize (obj s x yv) x0 (grd s x yv)
                   (hsn s x yv) method fit_options with
    | Ok r =>
        match reshape r (shape (params s)) with
        | Ok r2 => (Ok r, mk_world (with_params s r2) (trace w1))
        | Raise e => (Raise e, w1)
        end
    | Raise e => (Raise e, w1)
    end
  /\ (forall p v, _objective_function s x yv p = Ok v -> obj s x yv p = Ok (fneg v))
  /\ (forall p p2 scores post wts g,
        reshape p (shape (params s)) = Ok p2 -> dot x p2 = Ok scores ->
        softmax scores = Ok post -> unit_weights yv = Ok wts ->
        gradient x yv post wts = Ok g ->
        grd s x yv p = Ok (neg_nd (squeeze g)))
  /\ (forall p p2 scores post wts h,
        reshape p (shape (params s)) = Ok p2 -> dot x p2 = Ok scores ->
        softmax scores = Ok post -> unit_weights yv = Ok wts ->
        hessian x yv post wts = Ok h ->
        hsn s x yv p = Ok (neg_nd h)).
Proof.
  intros Hm Hy Hv s x0 w1. subst s x0 w1. split; [|split; [|split]].
  - unfold fit. repeat step. rewrite Hy. repeat step. rewrite Hv, Hm.
    repeat step. unfold reshape at 1.
    replace (size (params (self w)) =? size_of [size (params (self w))]) with true
      by (symmetry; apply Nat.eqb_eq; cbn; lia).
    repeat step.
    destruct (minimize _ _ _ _ _ _) as [r|e]; [|reflexivity].
    repeat step. destruct (reshape r (shape (params (self w)))); reflexivity.
  - intros p v H. unfold obj. rewrite H. reflexivity.
  - intros p p2 scores post wts g H1 H2 H3 H4 H5. unfold grd.
    rewrite H1; cbn [rbind]. rewrite H2; cbn [rbind]. rewrite H3; cbn [rbind].
    rewrite H4; cbn [rbind]. rewrite H5. reflexivity.
  - intros p p2 scores post wts h H1 H2 H3 H4 H5. unfold hsn.
    rewrite H1; cbn [rbind]. rewrite H2; cbn [rbind]. rewrite H3; cbn [rbind].
    rewrite H4; cbn [rbind]. rewrite H5. reflexivity.
Qed.

(** *** The log-likelihood *)

Lemma at_map_seq (f : nat -> F) N p : p < N -> at_ (map f (seq 0 N)) p = f p.
Proof.
  intros H. unfold at_.
  rewrite nth_indep with (d' := f 0) by (rewrite length_map, length_seq; exact H).
  rewrite map_nth, seq_nth by exact H. reflexivity.
Qed.

Lemma size_of_app l1 l2 : size_of (l1 ++ l2) = size_of l1 * size_of l2.
Proof.
  unfold size_of.
  induction l1 as [|a l1 IH]; cbn [app fold_right]; [lia | rewrite IH; lia].
Qed.

Lemma size_of_rev l : size_of (rev l) = size_of l.
Proof.
  induction l as [|a l IH]; [reflexivity|].
  cbn [rev]. rewrite size_of_app, IH. unfold size_of. cbn [fold_right]. nia.
Qed.

Lemma boffset_same r : forall stride p,
  p < size_of r -> boffset r r stride p = stride * p.
Proof.
  induction r as [|d r IH]; intros stride p H.
  - cbn in *. lia.
  - cbn [boffset]. cbn [size_of fold_right] in H. fold (size_of r) in H.
    assert (Hd : d <> 0) by (intros ->; lia).
    rewrite IH by (apply Nat.Div0.div_lt_upper_bound; lia).
    assert (Hm : (if d =? 1 then 0 else p mod d) = p mod d).
    { destruct (Nat.eqb_spec d 1) as [->|_]; [|reflexivity].
      rewrite Nat.mod_1_r. reflexivity. }
    rewrite Hm. pose proof (Nat.div_mod_eq p d). nia.
Qed.

Lemma power_same_shape (a b : ndarray F) sh :
  shape a = sh -> shape b = sh ->
  power a b
  = Ok (mk_nd sh (map (fun p => fpow (at_ (data a) p) (at_ (data b) p))
                      (seq 0 (size_of sh)))).
Proof.
  intros Ha Hb. unfold power, broadcast2. rewrite Ha, Hb, bshape_same.
  rewrite rev_involutive, size_of_rev. f_equal. f_equal.
  apply map_ext_in. intros p Hp. apply in_seq in Hp.
  rewrite boffset_same by (rewrite size_of_rev; lia).
  rewrite Nat.mul_1_l. reflexivity.
Qed.

Lemma likelihood_of_rows (post y : ndarray F) n k :
  shape post = [n; k] -> shape y = [n; k] ->
  (let? pw := power post y in
   let? lik := prod_axis1 pw in
   Ok (np_sum (np_log (add_scalar lik eps7))))%res
  = Ok (spec_log_likelihood post y n k).
Proof.
  intros Hp Hy. rewrite (@power_same_shape post y [n; k] Hp Hy). cbn [rbind].
  unfold prod_axis1. cbn [shape data rbind]. f_equal.
  unfold np_sum, np_log, add_scalar, map_nd, spec_log_likelihood. cbn [data shape].
  rewrite !map_map. f_equal.
  replace (n * size_of []) with n by (cbn; lia).
  apply map_ext_in. intros i Hi. apply in_seq in Hi.
  unfold sample_term, sample_likelihood. f_equal. f_equal. f_equal.
  apply map_ext_in. intros c Hc. apply in_seq in Hc.
  change (size_of []) with 1.
  rewrite Nat.div_1_r, Nat.mod_1_r, Nat.mul_1_r, Nat.add_0_r.
  rewrite at_map_seq by (cbn; nia). reflexivity.
Qed.

Lemma fold_ones (f : nat -> F) l acc :
  fmul acc fone = acc ->
  (forall c, In c l -> f c = fone) ->
  fold_left fmul (map f l) acc = acc.
Proof.
  intros Hacc. induction l as [|c l IH]; intros Hf; [reflexivity|].
  cbn. rewrite (Hf c) by (left; reflexivity). rewrite Hacc.
  apply IH. intros c' Hc'. apply Hf. right. exact Hc'.
Qed.

Lemma zero_likelihood (post y : ndarray F) k i c :
  exact_identities ->
  one_hot_row y k i c ->
  entry post k i c = fzero ->
  sample_likelihood post y k i = fzero.
Proof.
  intros (Hp0 & Hp1 & H11 & H10 & H01 & _) [Hc Hrow] Hz.
  unfold sample_likelihood, fprod.
  replace (seq 0 k) with (seq 0 c ++ c :: seq (S c) (k - S c)).
  2:{ change (c :: seq (S c) (k - S c)) with (seq c (S (k - S c))).
      rewrite <- (Nat.add_0_l c) at 2. rewrite <- seq_app. f_equal. lia. }
  rewrite map_app, fold_left_app. cbn [map fold_left].
  set (f := fun c' => fpow (entry post k i c') (entry y k i c')).
  assert (Hother : forall l, (forall c', In c' l -> c' < k /\ c' <> c) ->
            forall c', In c' l -> f c' = fone).
  { intros l Hl c' Hin. destruct (Hl c' Hin) as [Hlt Hne]. unfold f.
    rewrite (Hrow c' Hlt). apply Nat.eqb_neq in Hne. rewrite Hne. apply Hp0. }
  rewrite (@fold_ones f (seq 0 c) fone H11).
  2:{ apply Hother. intros c' Hin. apply in_seq in Hin. lia. }
  unfold f at 1. rewrite (Hrow c Hc), Nat.eqb_refl, Hz, Hp1, H10.
  apply fold_ones; [exact H01|].
  apply Hother. intros c' Hin. apply in_seq in Hin. lia.
Qed.

(** C5.  When the posterior [softmax(x . params)] and [y] both have [n] rows
    of [k] entries, [log_likelihood], and the objective of [fit] at the
    current parameters, return the sum over the samples of
    [log (prod_c posterior[i,c] ** y[i,c] + 1e-7)].  The constant is added
    before the logarithm is taken: for a sample whose one-hot row selects a
    class of posterior probability 0 the likelihood is exactly 0 and the
    term of the sum is [log 1e-7], a finite number. *)
Theorem log_likelihood_formula s x y post n k :
  py_given_x s x = Ok post ->
  shape post = [n; k] ->
  shape y = [n; k] ->
  log_likelihood s x y = Ok (spec_log_likelihood post y n k)
  /\ (well_shaped (params s) ->
      _objective_function s x y (params s) = Ok (spec_log_likelihood post y n k))
  /\ (forall i c,
        exact_identities ->
        one_hot_row y k i c ->
        entry post k i c = fzero ->
        sample_term post y k i = flog eps7).
Proof.
  intros Hpost Hp Hy. split; [|split].
  - unfold log_likelihood. rewrite Hpost. cbn [rbind].
    apply (@likelihood_of_rows post y n k Hp Hy).
  - intros Hwf. unfold _objective_function. rewrite (reshape_same Hwf).
    cbn [rbind]. unfold py_given_x in Hpost.
    destruct (dot x (params s)) as [scores|e]; [|discriminate].
    cbn [rbind] in *. rewrite Hpost. cbn [rbind].
    apply (@likelihood_of_rows post y n k Hp Hy).
  - intros i c Hid Hrow Hz. unfold sample_term.
    rewrite (@zero_likelihood post y k i c Hid Hrow Hz).
    destruct Hid as (_ & _ & _ & _ & _ & Heps). rewrite Heps. reflexivity.
Qed.

(** *** The [verbose] flag *)

Lemma iteration_params (s s' : LogisticRegression F) x y p :
  params s' = params s -> iter s' x y p = iter s x y p.
Proof.
  intros H. unfold iteration, _objective_function. rewrite H. reflexivity.
Qed.

Lemma loop_value_params x y range : forall p v w w',
  params (self w') = params (self w) ->
  fst (loop x y range p v w') = fst (loop x y range p v w).
Proof.
  induction range as [|i range IH]; intros p v w w' H; [reflexivity|].
  rewrite !loop_unfold.
  pose proof (body_value x y i p w) as Hv.
  pose proof (body_self x y i p w) as Hs.
  pose proof (body_value x y i p w') as Hv'.
  pose proof (body_self x y i p w') as Hs'.
  rewrite (iteration_params _ _ x y p H) in Hv'.
  destruct (body x y i p w) as [r w1], (body x y i p w') as [r' w1'].
  cbn [fst snd] in *. subst r r'.
  destruct (iter (self w) x y p) as [r|e]; [|reflexivity].
  destruct (fltb _ _); [reflexivity|].
  apply IH. congruence.
Qed.

(** The flag only selects what is printed: two objects that differ in nothing
    but [verbose] (and two traces, whatever they hold) give the same result
    and the same stored parameters. *)
Lemma verbose_is_observational x y method max_iter d k v v' p0 t t' :
  let w := mk_world (mk_lr d k v p0) t in
  let w' := mk_world (mk_lr d k v' p0) t' in
  fst (fit x y method max_iter w') = fst (fit x y method max_iter w)
  /\ params (self (snd (fit x y method max_iter w')))
     = params (self (snd (fit x y method max_iter w))).
Proof.
  intros w w'. subst w w'. unfold fit.
  rewrite !run_get_bind, !run_lift_bind. cbn [self output_dim expand_labels].
  destruct (expand_labels _ y) as [yv|e]; [|split; reflexivity].
  rewrite !run_get_bind, !run_lift_bind. cbn [self params].
  change (objective (mk_lr d k v' p0) x yv p0)
    with (objective (mk_lr d k v p0) x yv p0).
  destruct (objective (mk_lr d k v p0) x yv p0) as [v0|e]; [|split; reflexivity].
  destruct (method =? "Newton-Raphson")%string.
  - rewrite !run_emit_bind, !run_bind. cbn [self trace]. fold (@header F).
    set (w1 := mk_world (mk_lr d k v p0) (t ++ [header])).
    set (w1' := mk_world (mk_lr d k v' p0) (t' ++ [header])).
    pose proof (@loop_value_params x yv (seq 0 (Z.to_nat max_iter)) p0 v0 w1 w1'
                  eq_refl) as Hl.
    pose proof (loop_self x yv (seq 0 (Z.to_nat max_iter)) p0 v0 w1) as Hs.
    pose proof (loop_self x yv (seq 0 (Z.to_nat max_iter)) p0 v0 w1') as Hs'.
    destruct (loop x yv _ p0 v0 w1) as [r w2], (loop x yv _ p0 v0 w1') as [r' w2'].
    cbn [fst snd] in *. subst r'. destruct r as [p|e]; [|].
    + cbv beta iota.
      rewrite !run_get_bind, !run_lift_bind, Hs, Hs'. subst w1 w1'. cbn [self params].
      destruct (reshape p (shape p0)) as [p2|e].
      * rewrite !run_set_bind, !run_get_bind, !run_when_bind. split; reflexivity.
      * cbn [fst snd]. rewrite Hs, Hs'. split; reflexivity.
    + cbn [fst snd]. rewrite Hs, Hs'. split; reflexivity.
  - rewrite !run_lift_bind.
    destruct (reshape p0 [size p0]) as [x0|e]; [|split; reflexivity].
    rewrite !run_get_bind, !run_emit_bind, !run_lift_bind. cbn [self].
    change (obj (mk_lr d k v' p0)) with (obj (mk_lr d k v p0)).
    change (grd (mk_lr d k v' p0))
      with (grd (mk_lr d k v p0)).
    change (hsn (mk_lr d k v' p0))
      with (hsn (mk_lr d k v p0)).
    destruct (minimize _ _ _ _ _ _) as [r|e]; [|split; reflexivity].
    rewrite !run_get_bind, !run_lift_bind. cbn [self params].
    destruct (reshape r (shape p0)); split; reflexivity.
Qed.

(** ** Further properties of the class *)

(** *** The objective of [fit] and [log_likelihood] *)

Lemma objective_as_log_likelihood s x y p p2 :
  reshape p (shape (params s)) = Ok p2 ->
  objective s x y p = log_likelihood (with_params s p2) x y.
Proof.
  intros H. unfold _objective_function, log_likelihood, py_given_x.
  rewrite H. cbn [rbind with_params params].
  destruct (dot x p2) as [scores|e]; reflexivity.
Qed.

(** X1.  The closure that [fit] maximises is [log_likelihood] of the model
    whose parameters are the candidate, reshaped to the shape of
    [self.params]; a candidate of another size makes it raise [ValueError]
    before [x] or [y] is looked at. *)
Theorem objective_is_log_likelihood s x y p :
  (forall p2,
      reshape p (shape (params s)) = Ok p2 ->
      _objective_function s x y p = log_likelihood (with_params s p2) x y)
  /\ (size p <> size_of (shape (params s)) ->
      _objective_function s x y p = Raise ValueError).
Proof.
  split.
  - intros p2 H. exact (objective_as_log_likelihood s x y p H).
  - intros H. unfold _objective_function, reshape.
    apply Nat.eqb_neq in H. rewrite H. reflexivity.
Qed.

(** *** What [fit] returns and what it stores *)

Lemma fit_stores_result x y method max_iter w pf :
  fst (fit x y method max_iter w) = Ok pf ->
  reshape pf (shape (params (self w)))
  = Ok (params (self (snd (fit x y method max_iter w)))).
Proof.
  unfold fit. walk; try discriminate.
  destruct (method =? "Newton-Raphson")%string.
  - step. rewrite run_bind.
    pose proof (loop_self x a (seq 0 (Z.to_nat max_iter)) (params (self w)) a0
                  (mk_world (self w) (trace w ++ [Printed (PStr "... Newton-Raphson:")])))
      as Hs.
    destruct (loop _ _ _ _ _ _) as [[p|e] w']; cbn [self snd] in Hs;
      [|discriminate].
    walk; try discriminate. intros H. inversion H. subst p.
    rewrite Hs in E1. cbn [self] in E1. exact E1.
  - walk; try discriminate. intros H. inversion H. subst. exact E3.
Qed.

(** X2.  Whenever [fit] returns, on either branch, the stored parameter
    matrix holds exactly the entries of the returned array, under the shape
    [self.params] had before the call. *)
Theorem fit_result_is_stored x y method max_iter w pf :
  fst (fit x y method max_iter w) = Ok pf ->
  params (self (snd (fit x y method max_iter w)))
  = mk_nd (shape (params (self w))) (data pf)
  /\ size pf = size_of (shape (params (self w))).
Proof.
  intros H. apply fit_stores_result in H. apply reshape_ok in H. exact H.
Qed.

(** X3.  After a successful [fit], [log_likelihood] of the fitted object, on
    any data, is the objective of that call at the returned parameters: the
    value the loop last compared is the log-likelihood of what is stored. *)
Theorem fitted_log_likelihood x y method max_iter w pf :
  fst (fit x y method max_iter w) = Ok pf ->
  forall x' y',
    log_likelihood (self (snd (fit x y method max_iter w))) x' y'
    = _objective_function (self w) x' y' pf.
Proof.
  intros H x' y'. pose proof (fit_stores_result _ _ _ _ _ H) as Hst.
  rewrite (objective_as_log_likelihood (self w) x' y' pf Hst).
  unfold log_likelihood, py_given_x. reflexivity.
Qed.

(** *** Shapes in and out of [py_given_x] and [log_likelihood] *)

Lemma dot_matrices (x p : ndarray F) n d d' k :
  shape x = [n; d] -> shape p = [d'; k] ->
  dot x p = if d =? d'
            then Ok (mk_nd [n; k] (contract (size_of [n]) d (size_of []) k (data x) (data p)))
            else Raise ValueError.
Proof.
  intros Hx Hp. unfold dot. rewrite Hx, Hp. cbn [rev app].
  destruct (d =? d'); reflexivity.
Qed.

(** X4.  For a matrix [x] with rows of length [d] and a parameter matrix
    with [d'] rows: when [d] and [d'] differ, [py_given_x] and
    [log_likelihood] raise numpy's [ValueError]; when they agree (and
    [softmax] is total and keeps the shape) [py_given_x] returns one row of
    [output] probabilities per row of [x]. *)
Theorem py_given_x_inner_dimension s x n d d' k :
  shape x = [n; d] ->
  shape (params s) = [d'; k] ->
  (d <> d' ->
   py_given_x s x = Raise ValueError
   /\ forall y, log_likelihood s x y = Raise ValueError)
  /\ (d = d' -> total_softmax ->
      exists post, py_given_x s x = Ok post /\ shape post = [n; k]).
Proof.
  intros Hx Hp. unfold log_likelihood, py_given_x.
  rewrite (dot_matrices x (params s) Hx Hp). split.
  - intros Hd. apply Nat.eqb_neq in Hd. rewrite Hd. split; reflexivity.
  - intros -> Hsm. rewrite Nat.eqb_refl. cbn [rbind].
    destruct (Hsm (mk_nd [n; k]
                     (contract (size_of [n]) d' (size_of []) k (data x) (data (params s)))))
      as [post [H1 H2]].
    exists post. split; [exact H1 | exact H2].
Qed.


(** X6.  An object is well formed (a parameter matrix of shape
    [input_dim, output_dim] with that many entries) when it leaves the
    constructor and after every call of [fit], returning or raising. *)
Theorem object_stays_well_formed :
  (forall d k v, well_formed_object (init d k v))
  /\ (forall x y method max_iter w,
        well_formed_object (self w) ->
        well_formed_object (self (snd (fit x y method max_iter w)))).
Proof.
  split.
  - intros. apply init_well_formed.
  - intros. apply fit_keeps_well_formed. assumption.
Qed.

(** *** Class labels *)

Lemma map_seq_from (f : nat -> F) a n :
  map f (seq a n) = map (fun c => f (a + c)) (seq 0 n).
Proof.
  revert f a. induction n as [|n IH]; intros f a; [reflexivity|].
  cbn [seq map]. rewrite Nat.add_0_r. f_equal.
  rewrite (IH f (S a)), (IH (fun c => f (a + c)) 1).
  apply map_ext. intros c. f_equal. lia.
Qed.

Lemma firstn_seq_le n : forall a len, n <= len -> firstn n (seq a len) = seq a n.
Proof.
  induction n as [|n IH]; intros a len H; [reflexivity|].
  destruct len as [|len]; [lia|]. cbn [seq firstn]. f_equal. apply IH. lia.
Qed.

Lemma eye_row k i :
  i < k -> firstn (size_of [k]) (skipn (i * size_of [k]) (data (eye k))) = one_hot k i.
Proof.
  intros Hi. change (size_of [k]) with (k * 1). rewrite Nat.mul_1_r.
  unfold eye, one_hot. cbn [data].
  rewrite skipn_map, firstn_map, skipn_seq, firstn_seq_le by nia.
  rewrite map_seq_from. apply map_ext_in. intros c Hc. apply in_seq in Hc.
  cbn [Nat.add].
  replace ((i * k + c) / k) with i
    by (apply Nat.div_unique with c; lia).
  replace ((i * k + c) mod k) with c
    by (apply Nat.mod_unique with i; lia).
  rewrite Nat.eqb_sym. reflexivity.
Qed.

Lemma gather_one_hot k (l : list Z) :
  Forall (fun z => (0 <= z < Z.of_nat k)%Z) l ->
  gather k (size_of [k]) (data (eye k)) l
  = Ok (flat_map (fun z => one_hot k (Z.to_nat z)) l).
Proof.
  induction 1 as [|z l Hz _ IH]; [reflexivity|].
  cbn [gather flat_map]. unfold row_index.
  replace ((0 <=? z)%Z && (z <? Z.of_nat k)%Z) with true
    by (symmetry; apply andb_true_iff; lia).
  cbn [rbind]. rewrite IH. cbn [rbind].
  rewrite eye_row by lia. reflexivity.
Qed.

(** X7.  For any number of classes, a list of labels all within
    [0, output_dim) is expanded to the matrix with one row per label, each
    row the one-hot row of its label. *)
Theorem expand_labels_one_hot s l :
  Forall (fun z => (0 <= z < Z.of_nat (output_dim s))%Z) l ->
  expand_labels s (YList l)
  = Ok (mk_nd [List.length l; output_dim s]
          (flat_map (fun z => one_hot (output_dim s) (Z.to_nat z)) l)).
Proof.
  intros H. cbn [expand_labels]. unfold take_rows.
  change (shape (eye (output_dim s))) with [output_dim s; output_dim s].
  cbv beta iota. rewrite (@gather_one_hot _ _ H). reflexivity.
Qed.

Lemma row_index_wraps n z :
  label_in_range n z -> row_index n z = row_index n (z mod Z.of_nat n).
Proof.
  unfold label_in_range. intros Hz.
  destruct (Z.neg_nonneg_cases z) as [Hneg|Hpos].
  - replace (z mod Z.of_nat n)%Z with (z + Z.of_nat n)%Z
      by (apply Z.mod_unique with (-1)%Z; lia).
    unfold row_index.
    replace ((0 <=? z)%Z && (z <? Z.of_nat n)%Z) with false
      by (symmetry; apply andb_false_iff; left; apply Z.leb_gt; lia).
    replace ((- Z.of_nat n <=? z)%Z && (z <? 0)%Z) with true
      by (symmetry; apply andb_true_iff; lia).
    replace ((0 <=? z + Z.of_nat n)%Z && (z + Z.of_nat n <? Z.of_nat n)%Z) with true
      by (symmetry; apply andb_true_iff; lia).
    reflexivity.
  - rewrite Z.mod_small by lia. reflexivity.
Qed.

Lemma gather_wraps n R (d : list F) l :
  Forall (label_in_range n) l ->
  gather n R d l = gather n R d (map (fun z => (z mod Z.of_nat n)%Z) l).
Proof.
  induction 1 as [|z l Hz _ IH]; [reflexivity|].
  cbn [gather map]. rewrite <- (@row_index_wraps _ _ Hz), IH. reflexivity.
Qed.

(** X8.  Labels are read as Python indices: a label [z] in
    [-output_dim, 0) stands for the class [z + output_dim].  A call of [fit]
    with labels within [-output_dim, output_dim) is the call with every label
    reduced modulo [output_dim]. *)
Theorem negative_labels_count_from_the_end x l method max_iter w :
  Forall (label_in_range (output_dim (self w))) l ->
  fit x (YList l) method max_iter w
  = fit x (YList (map (fun z => (z mod Z.of_nat (output_dim (self w)))%Z) l))
      method max_iter w.
Proof.
  intros H. unfold fit. rewrite !run_get_bind.
  cbn [expand_labels]. unfold take_rows.
  change (shape (eye (output_dim (self w))))
    with [output_dim (self w); output_dim (self w)].
  cbv beta iota. rewrite <- (@gather_wraps _ _ _ _ H), length_map. reflexivity.
Qed.

Lemma gather_ok_in_range n R (d : list F) l out :
  gather n R d l = Ok out -> Forall (label_in_range n) l.
Proof.
  revert out. induction l as [|z l IH]; intros out; [constructor|].
  cbn [gather]. unfold row_index, label_in_range.
  destruct ((0 <=? z)%Z && (z <? Z.of_nat n)%Z) eqn:E1; cbn [rbind].
  - destruct (gather n R d l) as [rest|e]; cbn [rbind]; [|discriminate].
    intros _. apply andb_true_iff in E1. constructor; [lia | eauto].
  - destruct ((- Z.of_nat n <=? z)%Z && (z <? 0)%Z) eqn:E2; cbn [rbind];
      [|discriminate].
    destruct (gather n R d l) as [rest|e]; cbn [rbind]; [|discriminate].
    intros _. apply andb_true_iff in E2. constructor; [lia | eauto].
Qed.

(** X9.  A label list holding a label outside [-output_dim, output_dim)
    makes [fit] raise [IndexError], whatever the method, before anything is
    computed, printed or stored. *)
Theorem label_out_of_range_raises x l method max_iter w z :
  In z l ->
  ~ label_in_range (output_dim (self w)) z ->
  fit x (YList l) method max_iter w = (Raise IndexError, w).
Proof.
  intros Hin Hz. unfold fit. rewrite run_get_bind, run_lift_bind.
  destruct (expand_labels (self w) (YList l)) as [yv|e] eqn:Hy.
  - exfalso. apply Hz. cbn [expand_labels] in Hy. unfold take_rows in Hy.
    change (shape (eye (output_dim (self w))))
      with [output_dim (self w); output_dim (self w)] in Hy.
    cbv beta iota in Hy.
    destruct (gather _ _ _ l) as [out|e] eqn:Hg; [|discriminate].
    pose proof (@gather_ok_in_range _ _ _ _ _ Hg) as Hall.
    rewrite Forall_forall in Hall. exact (Hall z Hin).
  - destruct (expand_labels_raise _ _ Hy) as [-> _]. reflexivity.
Qed.

(** *** The budget of passes and what is printed *)

Lemma body_events x y i p w :
  exists evs,
    trace (snd (body x y i p w)) = trace w ++ evs
    /\ stdout evs = (if verbose (self w) then [print_index i] else [])
    /\ List.length (filter is_newton_call evs) <= 1
    /\ List.length (filter is_routine_call evs) <= 3.
Proof.
  unfold loop_body, call_gradient, call_hessian, call_newton.
  walk.
  all: eexists; split; [rewrite <- ?app_assoc; reflexivity|].
  all: destruct (verbose (self w)); cbn; repeat split; lia.
Qed.

Lemma filter_length_app (f : event F -> bool) l1 l2 :
  List.length (filter f (l1 ++ l2))
  = List.length (filter f l1) + List.length (filter f l2).
Proof. rewrite filter_app, length_app. reflexivity. Qed.

Lemma loop_events x y range : forall p v w,
  exists m evs,
    m <= List.length range
    /\ trace (snd (loop x y range p v w)) = trace w ++ evs
    /\ stdout evs
       = (if verbose (self w) then map print_index (firstn m range) else [])
    /\ List.length (filter is_newton_call evs) <= m
    /\ List.length (filter is_routine_call evs) <= 3 * m.
Proof.
  induction range as [|i range IH]; intros p v w.
  - exists 0, []. cbn. rewrite app_nil_r. destruct (verbose (self w)); auto.
  - rewrite loop_unfold.
    destruct (body_events x y i p w) as (evs & Ht & Hout & Hn & Hr).
    pose proof (body_self x y i p w) as Hs.
    assert (Hone : exists m evs0,
               m <= List.length (i :: range)
               /\ trace w ++ evs = trace w ++ evs0
               /\ stdout evs0
                  = (if verbose (self w)
                     then map print_index (firstn m (i :: range)) else [])
               /\ List.length (filter is_newton_call evs0) <= m
               /\ List.length (filter is_routine_call evs0) <= 3 * m).
    { exists 1, evs. cbn [List.length firstn map]. repeat split; try lia.
      exact Hout. }
    destruct (body x y i p w) as [[r|e] w']; cbn [snd] in *;
      [|rewrite Ht; exact Hone].
    destruct (fltb _ _); cbn [snd]; [rewrite Ht; exact Hone|].
    destruct (IH (fst r) (snd r) w') as (m & evs' & Hm & Ht' & Hout' & Hn' & Hr').
    exists (S m), (evs ++ evs'). rewrite Ht', Ht, app_assoc.
    rewrite stdout_app, !filter_length_app, Hout, Hout', Hs.
    cbn [List.length firstn map]. repeat split; try lia.
    destruct (verbose (self w)); reflexivity.
Qed.

(** X10.  A Newton-Raphson [fit] calls [newton_raphson] at most [max_iter]
    times, and [gradient], [hessian] and [newton_raphson] together at most
    three times that, whether it returns or raises; with [max_iter] zero or
    negative it calls none of them. *)
Theorem newton_calls_within_budget x y max_iter w :
  exists evs,
    trace (snd (fit x y "Newton-Raphson" max_iter w)) = trace w ++ evs
    /\ List.length (filter is_newton_call evs) <= Z.to_nat max_iter
    /\ List.length (filter is_routine_call evs) <= 3 * Z.to_nat max_iter.
Proof.
  assert (Hnone : exists evs : list (event F),
             trace w = trace w ++ evs
             /\ List.length (filter is_newton_call evs) <= Z.to_nat max_iter
             /\ List.length (filter is_routine_call evs) <= 3 * Z.to_nat max_iter).
  { exists []. rewrite app_nil_r. cbn. repeat split; lia. }
  unfold fit. rewrite run_get_bind, run_lift_bind.
  destruct (expand_labels (self w) y) as [yv|e]; [|exact Hnone].
  rewrite run_get_bind, run_lift_bind.
  destruct (objective (self w) x yv (params (self w))) as [v0|e]; [|exact Hnone].
  cbn [String.eqb Ascii.eqb Bool.eqb]. rewrite run_emit_bind, run_bind.
  set (w1 := mk_world (self w) (trace w ++ [Printed (PStr "... Newton-Raphson:")])).
  destruct (loop_events x yv (seq 0 (Z.to_nat max_iter)) (params (self w)) v0 w1)
    as (m & evs & Hm & Ht & _ & Hn & Hr).
  rewrite length_seq in Hm.
  assert (Hloop : exists evs0 : list (event F),
             trace w1 ++ evs = trace w ++ evs0
             /\ List.length (filter is_newton_call evs0) <= Z.to_nat max_iter
             /\ List.length (filter is_routine_call evs0) <= 3 * Z.to_nat max_iter).
  { exists (Printed (PStr "... Newton-Raphson:") :: evs).
    subst w1. cbn [trace]. rewrite <- app_assoc. cbn. repeat split; lia. }
  destruct (loop _ _ _ _ _ _) as [[p|e] w2]; cbn [snd] in Ht; cbv beta iota;
    [|cbn [snd]; rewrite Ht; exact Hloop].
  walk; rewrite ?Ht; try exact Hloop.
  destruct Hloop as (evs0 & H1 & H2 & H3).
  exists (evs0 ++ (if verbose (self w2) then [Printed (PStr "The End.")] else [])).
  rewrite H1, <- app_assoc, !filter_length_app.
  destruct (verbose (self w2)); cbn; repeat split; lia.
Qed.

(** X11.  With [verbose] on, once the labels are expanded and the initial
    objective is computed, a Newton-Raphson [fit] prints the header, then
    the indices 0, 1, ... of the passes it starts, at most [max_iter] of
    them, then "The End." when it returns and nothing more when it raises. *)
Theorem verbose_output x y max_iter w yv v0 :
  expand_labels (self w) y = Ok yv ->
  _objective_function (self w) x yv (params (self w)) = Ok v0 ->
  verbose (self w) = true ->
  exists m,
    m <= Z.to_nat max_iter
    /\ stdout (trace (snd (fit x y "Newton-Raphson" max_iter w)))
       = stdout (trace w) ++ [header] ++ map print_index (seq 0 m)
         ++ match fst (fit x y "Newton-Raphson" max_iter w) with
            | Ok _ => [the_end]
            | Raise _ => []
            end.
Proof.
  intros Hy Hv Hverb. rewrite (fit_newton_unfold x y max_iter w Hy Hv).
  set (w1 := mk_world (self w) (trace w ++ [header])).
  destruct (loop_events x yv (seq 0 (Z.to_nat max_iter)) (params (self w)) v0 w1)
    as (m & evs & Hm & Ht & Hout & _).
  pose proof (loop_self x yv (seq 0 (Z.to_nat max_iter)) (params (self w)) v0 w1) as Hs.
  rewrite length_seq in Hm. exists m. split; [exact Hm|].
  subst w1. cbn [self trace] in *. rewrite Hverb, firstn_seq_le in Hout by exact Hm.
  destruct (loop _ _ _ _ _ _) as [[p|e] w2]; cbn [snd fst] in *.
  - destruct (reshape p _); cbn [snd fst trace]; rewrite Ht, ?Hs, ?Hverb;
      rewrite !stdout_app, Hout, ?app_nil_r, <- ?app_assoc; reflexivity.
  - rewrite Ht, !stdout_app, Hout, ?app_nil_r, <- ?app_assoc. reflexivity.
Qed.

(** X12.  With any other method [fit] itself prints nothing, whatever
    [verbose], and calls none of [gradient], [hessian], [newton_raphson]:
    all it adds to the trace is the one call of [minimize], on the flattened
    parameters, and nothing at all when it raises before. *)
Theorem other_method_is_silent x y method max_iter w :
  (method =? "Newton-Raphson")%string = false ->
  exists evs,
    trace (snd (fit x y method max_iter w)) = trace w ++ evs
    /\ (evs = []
        \/ evs = [CallMinimize (mk_nd [size (params (self w))] (data (params (self w))))
                               method]).
Proof.
  intros Hm. unfold fit. rewrite Hm. walk.
  all: try (exists []; rewrite app_nil_r; split; [reflexivity | left; reflexivity]).
  all: apply reshape_ok in E1; destruct E1 as [-> _].
  all: eexists; split; [reflexivity | right; reflexivity].
Qed.

(** *** [log_likelihood] on a one-row target and on no sample *)

Lemma boffset_one_row k n p : boffset [k; 1] [k; n] 1 p = p mod k.
Proof.
  cbn [boffset]. rewrite Nat.eqb_refl.
  destruct (Nat.eqb_spec k 1) as [->|_]; [rewrite Nat.mod_1_r|]; lia.
Qed.

Lemma power_one_row (post y : ndarray F) n k :
  shape post = [n; k] -> shape y = [1; k] ->
  power post y
  = Ok (mk_nd [n; k]
          (map (fun p => fpow (at_ (data post) p) (at_ (data y) (p mod k)))
               (seq 0 (size_of [k; n])))).
Proof.
  intros Hp Hy. unfold power, broadcast2. rewrite Hp, Hy. cbn [rev app bshape].
  destruct (n =? 1); rewrite ?Nat.eqb_refl; cbn [rev app]; f_equal; f_equal.
  all: apply map_ext_in; intros p Hin; apply in_seq in Hin.
  all: rewrite boffset_one_row, boffset_same by lia.
  all: rewrite Nat.mul_1_l; reflexivity.
Qed.

Lemma likelihood_of_one_row (post y : ndarray F) n k :
  shape post = [n; k] -> shape y = [1; k] ->
  (let? pw := power post y in
   let? lik := prod_axis1 pw in
   Ok (np_sum (np_log (add_scalar lik eps7))))%res
  = Ok (one_row_log_likelihood post y n k).
Proof.
  intros Hp Hy. rewrite (@power_one_row post y n k Hp Hy). cbn [rbind].
  unfold prod_axis1. cbn [shape data rbind]. f_equal.
  unfold np_sum, np_log, add_scalar, map_nd, one_row_log_likelihood. cbn [data shape].
  rewrite !map_map. f_equal.
  replace (n * size_of []) with n by (cbn; lia).
  apply map_ext_in. intros i Hi. apply in_seq in Hi.
  f_equal. f_equal. f_equal.
  apply map_ext_in. intros c Hc. apply in_seq in Hc.
  change (size_of []) with 1.
  rewrite Nat.div_1_r, Nat.mod_1_r, Nat.mul_1_r, Nat.add_0_r.
  rewrite at_map_seq by (cbn; nia).
  unfold entry. rewrite Nat.mul_0_l, Nat.add_0_l.
  replace ((i * k + c) mod k) with c
    by (apply Nat.mod_unique with i; lia).
  reflexivity.
Qed.

(** X13.  A target with a single row is not rejected when [x] has [n]
    samples: [log_likelihood] scores every sample against that one row,
    returning the sum over the samples [i] of
    [log (prod_c posterior[i,c] ** y[0,c] + 1e-7)]. *)
Theorem log_likelihood_one_row_target s x y post n k :
  py_given_x s x = Ok post ->
  shape post = [n; k] ->
  shape y = [1; k] ->
  log_likelihood s x y = Ok (one_row_log_likelihood post y n k).
Proof.
  intros Hpost Hp Hy. unfold log_likelihood. rewrite Hpost. cbn [rbind].
  apply (@likelihood_of_one_row post y n k Hp Hy).
Qed.

(** X14.  On no sample at all ([x] and [y] with zero rows) [log_likelihood]
    is defined and is the empty sum, 0. *)
Theorem log_likelihood_of_no_sample s x y d k :
  total_softmax ->
  shape x = [0; d] ->
  shape (params s) = [d; k] ->
  shape y = [0; k] ->
  log_likelihood s x y = Ok fzero.
Proof.
  intros Hsm Hx Hp Hy. unfold log_likelihood, py_given_x.
  rewrite (dot_matrices x (params s) Hx Hp), Nat.eqb_refl. cbn [rbind].
  destruct (Hsm (mk_nd [0; k]
                   (contract (size_of [0]) d (size_of []) k (data x) (data (params s)))))
    as [post [H1 H2]].
  rewrite H1. cbn [rbind]. cbn [shape] in H2.
  rewrite (@likelihood_of_rows post y 0 k H2 Hy). reflexivity.
Qed.

End LogisticFacts.

(** ** Properties of sampling *)

Section SamplingFacts.

Context {F : Type} {ops : FloatOps F} {ext : Collaborators F} {smp : Sampler F}.

Lemma same_shape_refl sh : same_shape sh sh = true.
Proof.
  induction sh as [|a sh IH]; [reflexivity|].
  cbn. rewrite Nat.eqb_refl, IH. reflexivity.
Qed.

Lemma row_slice_of_matrix (post : ndarray F) n k i :
  shape post = [n; k] -> i < n ->
  exists r, row_slice post i = Ok r /\ shape r = [k].
Proof.
  intros Hp Hi. unfold row_slice. rewrite Hp.
  apply Nat.ltb_lt in Hi. rewrite Hi. eauto.
Qed.

Lemma draw_rows_shapes (post : ndarray F) n k :
  shape post = [n; k] -> draws_keep_shape ->
  forall range g rows g',
    Forall (fun i => i < n) range ->
    draw_rows post range g = (Ok rows, g') ->
    List.length rows = List.length range
    /\ Forall (fun r => shape r = [k]) rows.
Proof.
  intros Hp Hkeep. induction range as [|i range IH]; intros g rows g' Hr.
  - cbn. intros H. inversion H. split; [reflexivity | constructor].
  - inversion Hr as [|? ? Hi Hrest]; subst. cbn [draw_rows].
    destruct (row_slice_of_matrix post Hp Hi) as [r [Hrow Hshape]].
    rewrite Hrow.
    destruct (multinomial g 1 r) as [[d|e] g1] eqn:Hd; [|discriminate].
    pose proof (Hkeep _ _ _ _ _ Hd) as Hds.
    destruct (draw_rows post range g1) as [[ds|e] g2] eqn:Hrec; [|discriminate].
    intros H. inversion H. subst.
    destruct (IH g1 ds g' Hrest Hrec) as [Hlen Hall].
    split; [cbn; lia|]. constructor; [congruence | exact Hall].
Qed.

Lemma np_array_of_rows (rows : list (ndarray F)) k :
  rows <> [] ->
  Forall (fun r => shape r = [k]) rows ->
  exists y, np_array rows = Ok y /\ shape y = [List.length rows; k].
Proof.
  intros Hne Hall. destruct rows as [|r rows]; [contradiction|].
  unfold np_array.
  assert (Hr : shape r = [k]) by (inversion Hall; assumption).
  replace (forallb (fun r' => same_shape (shape r') (shape r)) (r :: rows)) with true.
  - eexists. split; [reflexivity|]. cbn [shape]. rewrite Hr. reflexivity.
  - symmetry. apply forallb_forall. intros r' Hin.
    rewrite Forall_forall in Hall. rewrite (Hall r' Hin), Hr.
    apply same_shape_refl.
Qed.

(** X15.  When numpy's [multinomial] keeps the shape of the vector it draws
    from, a successful [sample_y_given_x] on [n > 0] samples returns [n]
    rows of [output_dim] entries, one draw per sample; on no sample it
    returns the empty array of shape [(0,)], not [(0, output_dim)]. *)
Theorem sample_shape s x n d k g y g' :
  total_softmax ->
  draws_keep_shape ->
  shape x = [n; d] ->
  shape (params s) = [d; k] ->
  sample_y_given_x s x g = (Ok y, g') ->
  shape y = if n =? 0 then [0] else [n; k].
Proof.
  intros Hsm Hkeep Hx Hp. unfold sample_y_given_x, py_given_x.
  rewrite (dot_matrices x (params s) Hx Hp), Nat.eqb_refl. cbn [rbind].
  destruct (Hsm (mk_nd [n; k]
                   (contract (size_of [n]) d (size_of []) k (data x) (data (params s)))))
    as [post [H1 H2]].
  rewrite H1. cbn [shape] in H2. unfold shape0. rewrite Hx.
  destruct (draw_rows post (seq 0 n) g) as [[rows|e] g1] eqn:Hd; [|discriminate].
  assert (Hrange : Forall (fun i => i < n) (seq 0 n)).
  { apply Forall_forall. intros i Hi. apply in_seq in Hi. lia. }
  destruct (draw_rows_shapes post H2 Hkeep g Hrange Hd) as [Hlen Hall].
  rewrite length_seq in Hlen.
  destruct n as [|n].
  - destruct rows; [|discriminate]. cbn. intros H. inversion H. reflexivity.
  - destruct (@np_array_of_rows rows k) as [y' [Hy' Hs']];
      [intros ->; discriminate | exact Hall |].
    rewrite Hy'. intros H. inversion H. subst. rewrite Hs', Hlen. reflexivity.
Qed.

(** X16.  When the rows of [x] do not have the length the parameter matrix
    expects, [sample_y_given_x] raises [ValueError] without drawing: the
    state of the generator is the one it was given. *)
Theorem sample_inner_dimension_mismatch s x n d d' k g :
  shape x = [n; d] ->
  shape (params s) = [d'; k] ->
  d <> d' ->
  sample_y_given_x s x g = (Raise ValueError, g).
Proof.
  intros Hx Hp Hd. unfold sample_y_given_x, py_given_x.
  rewrite (dot_matrices x (params s) Hx Hp).
  apply Nat.eqb_neq in Hd. rewrite Hd. reflexivity.
Qed.

End SamplingFacts.

(** ** Worked instances *)

Section Instances.

Import Demo.

#[local] Existing Instance Demo.int_ops.

Local Abbreviation threes := (mk_nd [2; 2] [3; 3; 3; 3]%Z).
Local Abbreviation zeros := (mk_nd [2; 2] [0; 0; 0; 0]%Z).

Lemma toy_softmax_total : total_softmax (ext := toy).
Proof. intros a. exists a. split; reflexivity. Defined.

(** The default call on the small instance: the objective goes 0, 4, 8, 4;
    the third pass falls short of 8 + 1, the loop stops there, and the
    parameters of that pass are returned although the pass before was
    better. *)
Lemma fit_newton_stopping_rule_witness :
  fst (run_fit_default id2 (YArray id2) (start true)) = Ok threes
  /\ params (self (snd (run_fit_default id2 (YArray id2) (start true)))) = threes.
Proof.
  apply (proj1 (@fit_newton_stopping_rule Z int_ops toy
                  id2 (YArray id2) 20 (start true) id2 0%Z threes
                  eq_refl eq_refl eq_refl) CONVERGED).
  apply loop_continue with (p' := threes) (v' := 4%Z);
    [cbn; lia | reflexivity | reflexivity |].
  apply loop_continue with (p' := mk_nd [2; 2] [15; 15; 15; 15]%Z) (v' := 8%Z);
    [cbn; lia | reflexivity | reflexivity |].
  apply loop_converged with (v' := 4%Z); [cbn; lia | reflexivity | reflexivity].
Defined.

Lemma fit_zero_iterations_witness :
  fst (run_fit id2 (YList [0; 1]%Z) "Newton-Raphson" 0 (start false)) = Ok zeros
  /\ self (snd (run_fit id2 (YList [0; 1]%Z) "Newton-Raphson" 0 (start false)))
     = lr0 false.
Proof.
  apply (@fit_zero_iterations Z int_ops toy id2 (YList [0; 1]%Z) (start false)).
  - exact toy_softmax_total.
  - split; reflexivity.
  - exists 2. split; [reflexivity|]. split; [reflexivity|].
    repeat constructor; cbn; lia.
Defined.

Lemma params_written_on_loop_exit_only_witness :
  exists e w',
    run_fit_singular id2 (YArray id2) "Newton-Raphson" 5 (start false) = (Raise e, w')
    /\ self w' = lr0 false.
Proof.
  refine (ex_intro _ (OtherError "LinAlgError") (ex_intro _ _ (conj eq_refl _))).
  apply (proj2 (@params_written_on_loop_exit_only Z int_ops toy_singular
                  id2 (YArray id2) 5 (start false))
           (OtherError "LinAlgError")).
  reflexivity.
Defined.

Lemma int_exact_identities : exact_identities (F := Z).
Proof.
  repeat split; reflexivity.
Defined.

(** With all parameters zero the stand-in posterior is zero everywhere, so
    every observed class has probability 0: each term is [log eps]. *)
Lemma log_likelihood_formula_witness :
  log_likelihood (ext := toy) (lr0 false) id2 id2
  = Ok (spec_log_likelihood zeros id2 2 2)
  /\ sample_term zeros id2 2 0 = flog eps7.
Proof.
  destruct (@log_likelihood_formula Z int_ops toy (lr0 false) id2 id2
              zeros 2 2 eq_refl eq_refl eq_refl) as (H1 & _ & H3).
  split; [exact H1|].
  apply (H3 0 0 int_exact_identities); [|reflexivity].
  split; [lia|]. intros [|[|c']] Hc; [reflexivity | reflexivity | lia].
Defined.


(** C7, as stated, fails: [x] has two samples and [y] one; the one row of
    [y] broadcasts against the two rows of the posterior, nothing is checked,
    and with no pass to run [fit] returns normally. *)
Lemma sample_count_mismatch_goes_unnoticed :
  shape0 id2 = Ok 2 /\ shape0 y_one_row = Ok 1
  /\ ~ (exists e,
          fst (run_fit id2 (YArray y_one_row) "Newton-Raphson" 0 (start false))
          = Raise e).
Proof.
  split; [reflexivity|]. split; [reflexivity|].
  intros [e H]. unfold run_fit in H.
  rewrite (@fit_one_row_target_returns Z int_ops toy id2 y_one_row (start false) 2
             toy_softmax_total (conj eq_refl eq_refl) eq_refl eq_refl) in H.
  discriminate H.
Qed.

Lemma fit_inner_dimension_mismatch_witness :
  exists e,
    run_fit x_three_features (YArray id2) "Newton-Raphson" 20 (start false)
    = (Raise e, start false)
    /\ (e = ValueError \/ e = IndexError)
    /\ (forall a, YArray id2 = YArray a -> e = ValueError).
Proof.
  apply (@fit_inner_dimension_mismatch Z int_ops toy
           x_three_features (YArray id2) "Newton-Raphson" 20 (start false) 1 3 2 2);
    [reflexivity | reflexivity | lia].
Defined.

Lemma fit_other_method_delegates_witness :
  run_fit id2 (YArray id2) "BFGS" 20 (start false)
  = (Ok (mk_nd [4] [0; 0; 0; 0]%Z),
     mk_world (lr0 false) [CallMinimize (mk_nd [4] [0; 0; 0; 0]%Z) "BFGS"]).
Proof.
  exact (proj1 (@fit_other_method_delegates Z int_ops toy
                  id2 (YArray id2) "BFGS" 20 (start false) id2 0%Z
                  eq_refl eq_refl eq_refl)).
Defined.

Lemma array_target_is_used_as_is_witness :
  exists evs,
    trace (snd (run_fit id2 (YArray labels01) "Newton-Raphson" 1 (start false)))
    = [] ++ evs
    /\ Forall (feeds id2 labels01) evs.
Proof.
  exact (proj2 (proj2 (@array_target_is_used_as_is Z int_ops toy
                         id2 labels01 "Newton-Raphson" 1 (start false)))).
Defined.

(** The label array reaches [gradient] as it is, where the label list
    reaches it as one-hot rows: the two calls differ. *)
Lemma array_labels_differ_from_list_labels :
  run_fit id2 (YArray labels01) "Newton-Raphson" 1 (start false)
  <> run_fit id2 (YList [0; 1]%Z) "Newton-Raphson" 1 (start false).
Proof.
  vm_compute. intros H. discriminate H.
Qed.

(** C2, on the code.  With [verbose] off, a Newton-Raphson [fit] that runs
    three passes still writes the header to standard output: what is
    printed is not empty. *)
Theorem fit_quiet_still_prints_header :
  stdout (trace (snd (run_fit id2 (YArray id2) "Newton-Raphson" 20 (start false))))
  = [Printed (PStr "... Newton-Raphson:")].
Proof.
  exact (@fit_quiet_output Z int_ops toy id2 (YArray id2) 20 (start false)
           id2 0%Z eq_refl eq_refl eq_refl).
Qed.

(** *** Instances of the further properties *)

Lemma objective_is_log_likelihood_witness :
  _objective_function (ext := toy) (lr0 false) id2 id2 flat_zeros
  = log_likelihood (ext := toy) (with_params (lr0 false) zeros) id2 id2.
Proof.
  exact (proj1 (@objective_is_log_likelihood Z int_ops toy (lr0 false) id2 id2
                  flat_zeros) zeros eq_refl).
Defined.

Lemma fit_result_is_stored_witness :
  params (self (snd (run_fit id2 (YArray id2) "BFGS" 20 (start false)))) = zeros
  /\ size flat_zeros = 4.
Proof.
  exact (@fit_result_is_stored Z int_ops toy id2 (YArray id2) "BFGS" 20
           (start false) flat_zeros eq_refl).
Defined.

Lemma fitted_log_likelihood_witness :
  log_likelihood (ext := toy)
    (self (snd (run_fit id2 (YArray id2) "Newton-Raphson" 20 (start false)))) id2 id2
  = _objective_function (ext := toy) (lr0 false) id2 id2 threes.
Proof.
  exact (@fitted_log_likelihood Z int_ops toy id2 (YArray id2) "Newton-Raphson" 20
           (start false) threes eq_refl id2 id2).
Defined.

Lemma py_given_x_inner_dimension_witness :
  py_given_x (ext := toy) (lr0 false) x_three_features = Raise ValueError
  /\ forall y, log_likelihood (ext := toy) (lr0 false) x_three_features y
               = Raise ValueError.
Proof.
  apply (proj1 (@py_given_x_inner_dimension Z int_ops toy (lr0 false)
                  x_three_features 1 3 2 2 eq_refl eq_refl)).
  lia.
Defined.


Lemma object_stays_well_formed_witness :
  well_formed_object
    (self (snd (run_fit id2 (YArray id2) "Newton-Raphson" 20 (start true)))).
Proof.
  apply (proj2 (@object_stays_well_formed Z int_ops toy)).
  split; reflexivity.
Defined.

Lemma expand_labels_one_hot_witness :
  expand_labels (lr0 false) (YList [1; 0; 1]%Z)
  = Ok (mk_nd [3; 2] [0; 1; 1; 0; 0; 1]%Z).
Proof.
  apply (@expand_labels_one_hot Z int_ops (lr0 false) [1; 0; 1]%Z).
  repeat constructor; cbn; lia.
Defined.

Lemma negative_labels_count_from_the_end_witness :
  run_fit id2 (YList [-1; 0]%Z) "Newton-Raphson" 20 (start true)
  = run_fit id2 (YList [1; 0]%Z) "Newton-Raphson" 20 (start true).
Proof.
  apply (@negative_labels_count_from_the_end Z int_ops toy id2 [-1; 0]%Z
           "Newton-Raphson" 20 (start true)).
  repeat constructor; cbn; lia.
Defined.

Lemma label_out_of_range_raises_witness :
  run_fit id2 (YList [0; 2]%Z) "Newton-Raphson" 20 (start true)
  = (Raise IndexError, start true).
Proof.
  apply (@label_out_of_range_raises Z int_ops toy id2 [0; 2]%Z "Newton-Raphson" 20
           (start true) 2%Z).
  - right. left. reflexivity.
  - unfold label_in_range. cbn. lia.
Defined.

Lemma verbose_output_witness :
  exists m,
    m <= 20
    /\ stdout (trace (snd (run_fit id2 (YArray id2) "Newton-Raphson" 20 (start true))))
       = [] ++ [header] ++ map print_index (seq 0 m)
         ++ match fst (run_fit id2 (YArray id2) "Newton-Raphson" 20 (start true)) with
            | Ok _ => [the_end]
            | Raise _ => []
            end.
Proof.
  exact (@verbose_output Z int_ops toy id2 (YArray id2) 20 (start true) id2 0%Z
           eq_refl eq_refl eq_refl).
Defined.

Lemma other_method_is_silent_witness :
  exists evs,
    trace (snd (run_fit id2 (YArray id2) "BFGS" 20 (start true))) = [] ++ evs
    /\ (evs = [] \/ evs = [CallMinimize flat_zeros "BFGS"]).
Proof.
  exact (@other_method_is_silent Z int_ops toy id2 (YArray id2) "BFGS" 20
           (start true) eq_refl).
Defined.

Lemma log_likelihood_one_row_target_witness :
  log_likelihood (ext := toy) (lr0 false) id2 y_one_row
  = Ok (one_row_log_likelihood zeros y_one_row 2 2).
Proof.
  exact (@log_likelihood_one_row_target Z int_ops toy (lr0 false) id2 y_one_row
           zeros 2 2 eq_refl eq_refl eq_refl).
Defined.

Lemma log_likelihood_of_no_sample_witness :
  log_likelihood (ext := toy) (lr0 false) no_rows no_rows = Ok 0%Z.
Proof.
  exact (@log_likelihood_of_no_sample Z int_ops toy (lr0 false) no_rows no_rows 2 2
           toy_softmax_total eq_refl eq_refl eq_refl).
Defined.

Lemma toy_draws_keep_shape : draws_keep_shape (smp := toy_sampler).
Proof.
  intros g n pvals d g' H. cbn in H. inversion H. reflexivity.
Defined.

Lemma sample_shape_witness :
  shape (mk_nd [2; 2] [1; 0; 0; 1]%Z) = [2; 2]
  /\ fst (sample_y_given_x (ext := toy) (smp := toy_sampler) (lr0 false) id2 0)
     = Ok (mk_nd [2; 2] [1; 0; 0; 1]%Z).
Proof.
  split; [|reflexivity].
  exact (@sample_shape Z int_ops toy toy_sampler (lr0 false) id2 2 2 2 0
           (mk_nd [2; 2] [1; 0; 0; 1]%Z) 2
           toy_softmax_total toy_draws_keep_shape eq_refl eq_refl eq_refl).
Defined.

Lemma sample_inner_dimension_mismatch_witness :
  sample_y_given_x (ext := toy) (smp := toy_sampler) (lr0 false) x_three_features 7
  = (Raise ValueError, 7).
Proof.
  apply (@sample_inner_dimension_mismatch Z int_ops toy toy_sampler (lr0 false)
           x_three_features 1 3 2 2 7); [reflexivity | reflexivity | lia].
Defined.

End Instances.
